(** * Chat relay: presence, message fan-out and read receipts

    A shallow embedding of the Socket.IO chat server (the "connection"
    handlers over the [users] map and the [messages] array) and of the
    client's message mirror in [App.tsx] (the "chat message" and
    "message updated" handlers and the three read-receipt triggers),
    followed by the properties established for them. *)

From Stdlib Require Import ZArith NArith String Ascii Lia.
From stdpp Require Import base option list sorting.

Local Open Scope Z_scope.

(** ** JavaScript strings *)

Module JS.

(** A JavaScript string is a sequence of UTF-16 code units. *)
Definition code_unit : Type := N.
Definition jsstring : Type := list N.

(** A string literal of the source whose characters are all ASCII. *)
Definition lit (s : string) : jsstring :=
  map N_of_ascii (list_ascii_of_string s).

(** [ToBoolean] on a string: only the empty string is falsy. *)
Definition truthy (s : jsstring) : bool :=
  match s with
  | [] => false
  | _ :: _ => true
  end.

(** [a === b] and [a !== b] on strings. *)
Definition str_eqb (a b : jsstring) : bool := bool_decide (a = b).
Definition str_neqb (a b : jsstring) : bool := negb (str_eqb a b).

(** ECMAScript [WhiteSpace] and [LineTerminator] code points, the ones
    [String.prototype.trim] strips: TAB, LF, VT, FF, CR, SP, NBSP,
    U+1680, U+2000..U+200A, U+2028, U+2029, U+202F, U+205F, U+3000 and
    U+FEFF. *)
Definition is_whitespace (c : code_unit) : bool :=
  ((9 <=? c) && (c <=? 13) || (c =? 32) || (c =? 160) || (c =? 5760)
   || (8192 <=? c) && (c <=? 8202) || (c =? 8232) || (c =? 8233)
   || (c =? 8239) || (c =? 8287) || (c =? 12288) || (c =? 65279))%N.

Fixpoint trim_start (s : jsstring) : jsstring :=
  match s with
  | [] => []
  | c :: s' => if is_whitespace c then trim_start s' else s
  end.

Definition trim_end (s : jsstring) : jsstring :=
  rev (trim_start (rev s)).

(** [s.trim()] *)
Definition trim (s : jsstring) : jsstring := trim_end (trim_start s).

(** [arr.includes(x)] on an array of strings. *)
Definition includes (arr : list jsstring) (x : jsstring) : bool :=
  bool_decide (x ∈ arr).

(** [arr.slice(-n)]: the last [n] elements, the whole array when it has
    fewer. *)
Definition slice_last {A} (n : nat) (arr : list A) : list A :=
  drop (length arr - n) arr.

(** A [Map<string, V>]: entries in insertion order, one per key. *)
Definition Map (V : Type) : Type := list (jsstring * V).

Fixpoint map_get {V} (k : jsstring) (m : Map V) : option V :=
  match m with
  | [] => None
  | (k', v) :: m' => if str_eqb k k' then Some v else map_get k m'
  end.

(** [m.set(k, v)]: an existing key keeps its position, a new key goes
    last. *)
Fixpoint map_set {V} (k : jsstring) (v : V) (m : Map V) : Map V :=
  match m with
  | [] => [(k, v)]
  | (k', v') :: m' =>
      if str_eqb k k' then (k, v) :: m' else (k', v') :: map_set k v m'
  end.

(** [m.delete(k)] *)
Fixpoint map_delete {V} (k : jsstring) (m : Map V) : Map V :=
  match m with
  | [] => []
  | (k', v') :: m' =>
      if str_eqb k k' then m' else (k', v') :: map_delete k m'
  end.

(** [Array.from(m.values())] *)
Definition map_values {V} (m : Map V) : list V := map snd m.

Definition map_keys {V} (m : Map V) : list jsstring := map fst m.

(** What every [Map] satisfies: no key occurs twice. *)
Definition map_wf {V} (m : Map V) : Prop := NoDup (map_keys m).

End JS.

Import JS.

(** ** Messages *)

(** [Message] of [lib/types/Message.ts]; [timestamp] is the [Date]'s
    [getTime()], in milliseconds. *)
Record Message : Type := mkMessage {
  id : jsstring;
  text : jsstring;
  sender : jsstring;
  timestamp : Z;
  readBy : list jsstring
}.

#[global] Instance Message_eq_dec : EqDecision Message.
Proof. solve_decision. Defined.

(** ** The server *)

Module Server.

(** The two module-level stores: [users] (socket id to username) and
    [messages]. *)
Record State : Type := mkState {
  users : Map jsstring;
  messages : list Message
}.

Definition initial : State := {| users := []; messages := [] |}.

(** Events the server sends. *)
Inductive payload : Type :=
| chat_message (m : Message)
| message_updated (m : Message)
| online_users (names : list jsstring).

(** [io.emit] reaches every connection, [socket.emit] one of them. *)
Inductive emit : Type :=
| io_emit (p : payload)
| socket_emit (sid : jsstring) (p : payload).

Definition getOnlineUsers (s : State) : list jsstring :=
  map_values (users s).

Definition broadcastOnlineUsers (s : State) : list emit :=
  [io_emit (online_users (getOnlineUsers s))].

(** A message with sender "System". *)
Definition systemMessage (uuid : jsstring) (body : jsstring) (now : Z)
    (readers : list jsstring) : Message :=
  {| id := uuid; text := body; sender := lit "System";
     timestamp := now; readBy := readers |}.

(** [messages.push(m); io.emit("chat message", m)] *)
Definition push_and_emit (m : Message) (s : State) : State * list emit :=
  ({| users := users s; messages := messages s ++ [m] |},
   [io_emit (chat_message m)]).

(** [[...messages].sort((a, b) => a.timestamp - b.timestamp)]: the sort
    is stable, written here as an insertion sort that puts a record
    before the first one that is not older. *)
Fixpoint insert_by_time (m : Message) (l : list Message) : list Message :=
  match l with
  | [] => [m]
  | x :: l' =>
      if timestamp m <=? timestamp x then m :: l
      else x :: insert_by_time m l'
  end.

Fixpoint sort_by_time (l : list Message) : list Message :=
  match l with
  | [] => []
  | m :: l' => insert_by_time m (sort_by_time l')
  end.

Definition messageHistoryLimit : nat := 50.

Definition recentMessages (s : State) : list Message :=
  slice_last messageHistoryLimit (sort_by_time (messages s)).

(** [socket.on("user joined", username => ...)]; [uuid] and [now] are
    what [uuidv4()] and [new Date()] return when they are called. *)
Definition user_joined (sid username uuid : jsstring) (now : Z)
    (s : State) : State * list emit :=
  let joined :=
    push_and_emit
      (systemMessage uuid (username ++ lit " joined the chat") now
         [username]) s in
  let '(s1, out1) :=
    match map_get sid (users s) with
    | Some previousUsername =>
        if truthy previousUsername then
          if str_neqb previousUsername username then
            push_and_emit
              (systemMessage uuid
                 (previousUsername ++ lit " changed their name to "
                    ++ username) now [username]) s
          else (s, [])
        else joined
    | None => joined
    end in
  let s2 :=
    {| users := map_set sid username (users s1);
       messages := messages s1 |} in
  (s2,
   out1
     ++ map (fun msg => socket_emit sid (chat_message msg))
          (recentMessages s2)
     ++ broadcastOnlineUsers s2).

(** [socket.on("change username", data => ...)] *)
Definition change_username (sid oldUsername newUsername uuid : jsstring)
    (now : Z) (s : State) : State * list emit :=
  if str_neqb oldUsername newUsername && str_neqb (trim newUsername) []
  then
    let '(s1, out1) :=
      push_and_emit
        (systemMessage uuid
           (oldUsername ++ lit " changed their name to " ++ newUsername)
           now [newUsername]) s in
    let s2 :=
      {| users := map_set sid newUsername (users s1);
         messages := messages s1 |} in
    (s2, out1 ++ broadcastOnlineUsers s2)
  else (s, []).

(** [socket.on("chat message", msg => ...)] *)
Definition chat_message_received (msg_text msg_sender uuid : jsstring)
    (now : Z) (s : State) : State * list emit :=
  push_and_emit
    {| id := uuid; text := msg_text; sender := msg_sender;
       timestamp := now; readBy := [msg_sender] |} s.

(** [message.readBy.push(reader)] *)
Definition readBy_push (message : Message) (reader : jsstring) : Message :=
  {| id := id message; text := text message; sender := sender message;
     timestamp := timestamp message;
     readBy := readBy message ++ [reader] |}.

(** [socket.on("read receipt", receipt => ...)]; [list_find] is
    [findIndex] together with the element at that index. *)
Definition read_receipt (messageId reader : jsstring) (s : State)
    : State * list emit :=
  match list_find (fun msg => id msg = messageId) (messages s) with
  | Some (messageIndex, message) =>
      if negb (includes (readBy message) reader) then
        let message' := readBy_push message reader in
        ({| users := users s;
            messages := <[messageIndex := message']> (messages s) |},
         [io_emit (message_updated message')])
      else (s, [])
  | None => (s, [])
  end.

(** [socket.on("disconnect", () => ...)] *)
Definition disconnect (sid uuid : jsstring) (now : Z) (s : State)
    : State * list emit :=
  match map_get sid (users s) with
  | Some username =>
      if truthy username then
        let '(s1, out1) :=
          push_and_emit
            (systemMessage uuid (username ++ lit " left the chat") now [])
            s in
        let s2 :=
          {| users := map_delete sid (users s1);
             messages := messages s1 |} in
        (s2, out1 ++ broadcastOnlineUsers s2)
      else (s, [])
  | None => (s, [])
  end.

(** One inbound event on the socket [sid], with the values the clock and
    the id generator hand out while it is handled. *)
Inductive event : Type :=
| UserJoined (sid username uuid : jsstring) (now : Z)
| ChangeUsername (sid oldUsername newUsername uuid : jsstring) (now : Z)
| ChatMessage (sid msg_text msg_sender uuid : jsstring) (now : Z)
| ReadReceipt (sid messageId reader : jsstring)
| Disconnect (sid uuid : jsstring) (now : Z).

Definition step (s : State) (e : event) : State * list emit :=
  match e with
  | UserJoined sid username uuid now => user_joined sid username uuid now s
  | ChangeUsername sid o n uuid now => change_username sid o n uuid now s
  | ChatMessage _ t sd uuid now => chat_message_received t sd uuid now s
  | ReadReceipt _ mid r => read_receipt mid r s
  | Disconnect sid uuid now => disconnect sid uuid now s
  end.

(** The handlers run one after the other; the emitted events accumulate
    in order. *)
Fixpoint run (s : State) (es : list event) : State * list emit :=
  match es with
  | [] => (s, [])
  | e :: es' =>
      let '(s1, out1) := step s e in
      let '(s2, out2) := run s1 es' in
      (s2, out1 ++ out2)
  end.

End Server.

(** ** The client *)

(** [ReadReceipt] of [lib/types/ReadReceipt.ts], the payload of the
    client's "read receipt" event. *)
Record ReadReceipt : Type := mkReadReceipt {
  messageId : jsstring;
  reader : jsstring
}.

Module Client.

(** The part of the [App] component the handlers read and write:
    [messages] (the mirror), [username] (which [usernameRef.current]
    follows) and [socketRef.current], [None] for [null] and otherwise
    the socket's [connected] flag. *)
Record State : Type := mkState {
  messages : list Message;
  username : jsstring;
  socket : option bool
}.

Definition initial : State :=
  {| messages := []; username := []; socket := None |}.

Definition with_messages (st : State) (l : list Message) : State :=
  {| messages := l; username := username st; socket := socket st |}.

(** [socketRef.current?.connected] *)
Definition connected (st : State) : bool :=
  match socket st with
  | Some c => c
  | None => false
  end.

(** [socketRef.current?.emit("read receipt", r)] *)
Definition emit_read_receipt (st : State) (r : ReadReceipt)
    : list ReadReceipt :=
  match socket st with
  | Some _ => [r]
  | None => []
  end.

(** The [setMessages] updater of [handleChatMessage]. *)
Definition merge (msg : Message) (prevMessages : list Message)
    : list Message :=
  if existsb (fun m => str_eqb (id m) (id msg)) prevMessages
  then prevMessages
  else prevMessages ++ [msg].

(** [handleChatMessage]: the new mirror and the receipts sent. *)
Definition handleChatMessage (msg : Message) (st : State)
    : State * list ReadReceipt :=
  (with_messages st (merge msg (messages st)),
   if truthy (username st) && str_neqb (sender msg) (username st)
      && bool_decide (is_Some (socket st))
   then [{| messageId := id msg; reader := username st |}]
   else []).

(** The [setMessages] updater of [handleMessageUpdated]. *)
Definition replace_by_id (updatedMsg : Message)
    (prevMessages : list Message) : list Message :=
  map (fun msg => if str_eqb (id msg) (id updatedMsg) then updatedMsg
                  else msg) prevMessages.

Definition handleMessageUpdated (updatedMsg : Message) (st : State)
    : State :=
  with_messages st (replace_by_id updatedMsg (messages st)).

(** [handleVisibilityChange]; [visible] is
    [document.visibilityState === "visible"]. *)
Definition handleVisibilityChange (visible : bool) (st : State)
    : list ReadReceipt :=
  if visible && truthy (username st) && connected st then
    flat_map
      (fun msg =>
         if str_neqb (sender msg) (username st)
            && negb (includes (readBy msg) (username st))
         then emit_read_receipt st
                {| messageId := id msg; reader := username st |}
         else [])
      (messages st)
  else [].

(** An [IntersectionObserverEntry], with the observed element's
    [data-message-id] attribute ([None] for [null]). *)
Record entry : Type := mkEntry {
  isIntersecting : bool;
  data_message_id : option jsstring
}.

(** [observerCallback] *)
Definition observerCallback (entries : list entry) (st : State)
    : list ReadReceipt :=
  flat_map
    (fun e =>
       if isIntersecting e then
         match data_message_id e with
         | Some mid =>
             if truthy mid then
               match find (fun m => str_eqb (id m) mid) (messages st) with
               | Some message =>
                   if str_neqb (sender message) (username st)
                      && negb (includes (readBy message) (username st))
                   then emit_read_receipt st
                          {| messageId := mid; reader := username st |}
                   else []
               | None => []
               end
             else []
         | None => []
         end
       else [])
    entries.

(** [handleTrueLogout] *)
Definition handleTrueLogout (st : State) : State :=
  match socket st with
  | Some _ => {| messages := []; username := []; socket := None |}
  | None => st
  end.

(** What changes the mirror: the two server pushes and a logout. *)
Inductive delivery : Type :=
| PushMessage (msg : Message)
| PushMessageUpdated (updatedMsg : Message)
| Logout.

Definition deliver (st : State) (d : delivery) : State :=
  match d with
  | PushMessage msg => fst (handleChatMessage msg st)
  | PushMessageUpdated u => handleMessageUpdated u st
  | Logout => handleTrueLogout st
  end.

Definition deliver_all (st : State) (ds : list delivery) : State :=
  foldl deliver st ds.

End Client.

(** ** Vocabulary of the statements *)

Section Vocabulary.

(** [m] is the record at [i], the first one of the log with id [mid]:
    what [findIndex] selects. *)
Definition first_with_id (mid : jsstring) (log : list Message) (i : nat)
    (m : Message) : Prop :=
  log !! i = Some m /\ id m = mid /\
  forall j m', log !! j = Some m' -> (j < i)%nat -> id m' <> mid.

(** Some record of the log carries the id. *)
Definition known_id (mid : jsstring) (log : list Message) : Prop :=
  exists m, m ∈ log /\ id m = mid.

(** The name is bound to at least one connection of the registry. *)
Definition bound (s : Server.State) (name : jsstring) : Prop :=
  exists sid, map_get sid (Server.users s) = Some name.

(** [m'] is [m] with possibly more readers: same id, text, sender and
    timestamp, and the old readers all still there. *)
Definition same_record_more_readers (m m' : Message) : Prop :=
  id m' = id m /\ text m' = text m /\ sender m' = sender m /\
  timestamp m' = timestamp m /\ readBy m ⊆ readBy m'.

(** Every record of [log] is still at its index in [log'], with at least
    the readers it had. *)
Definition log_only_grows (log log' : list Message) : Prop :=
  forall i m, log !! i = Some m ->
    exists m', log' !! i = Some m' /\ same_record_more_readers m m'.

Definition is_read_receipt (e : Server.event) : bool :=
  match e with
  | Server.ReadReceipt _ _ _ => true
  | _ => false
  end.

(** The "chat message" broadcasts of a trace, in order. *)
Definition broadcast_messages (out : list Server.emit) : list Message :=
  omap (fun e => match e with
                 | Server.io_emit (Server.chat_message m) => Some m
                 | _ => None
                 end) out.

(** The "chat message" pushes a trace sends to the socket [sid] alone. *)
Definition pushes_to (sid : jsstring) (out : list Server.emit)
    : list Message :=
  omap (fun e => match e with
                 | Server.socket_emit sid' (Server.chat_message m) =>
                     if str_eqb sid' sid then Some m else None
                 | _ => None
                 end) out.

(** Oldest first. *)
Definition by_time (a b : Message) : Prop := timestamp a <= timestamp b.

(** No two entries of a mirror share an id. *)
Definition unique_ids (mirror : list Message) : Prop :=
  NoDup (map id mirror).

(** Two connections join as "Ana", then the first one disconnects. *)
Definition ana_scenario : list Server.event :=
  [Server.UserJoined (lit "c1") (lit "Ana") (lit "u1") 1000;
   Server.UserJoined (lit "c2") (lit "Ana") (lit "u2") 2000;
   Server.Disconnect (lit "c1") (lit "u3") 3000].

(** A connection joins under the empty name, then acts again. *)
Definition empty_name_then (e : Server.event) : list Server.event :=
  [Server.UserJoined (lit "c1") [] (lit "u0") 500; e].

(** The three guards of a read-receipt emission, on the mirror of [st]:
    the receipt names the current user as reader, and some entry of the
    mirror has the receipt's message id, a sender other than the current
    user, and not yet the current user among its readers. *)
Definition guarded (st : Client.State) (r : ReadReceipt) : Prop :=
  reader r = Client.username st /\
  exists m, m ∈ Client.messages st /\ id m = messageId r /\
            sender m <> Client.username st /\
            Client.username st ∉ readBy m.

(** A client named "bob" with an empty mirror and a live socket, and a
    record from "alice" that "bob" has read already, as a history replay
    delivers it. *)
Definition bob_fresh : Client.State :=
  {| Client.messages := []; Client.username := lit "bob";
     Client.socket := Some true |}.

Definition read_by_bob : Message :=
  {| id := lit "m1"; text := lit "hi"; sender := lit "alice";
     timestamp := 1000; readBy := [lit "alice"; lit "bob"] |}.

End Vocabulary.

(** ** The client's components *)

Module View.

(** What [ReadReceiptDisplay] renders: nothing ([null]), the text
    "Not read yet", or "Read by [count] [noun]" with the tooltip's list
    of readers. *)
Inductive receipt_view : Type :=
| RenderNothing
| NotReadYet
| ReadByOthers (count : nat) (noun : jsstring) (tooltip : list jsstring).

Definition ReadReceiptDisplay (message : Message) : receipt_view :=
  if str_eqb (sender message) (lit "System") then RenderNothing
  else
    let otherReaders :=
      List.filter (fun reader => str_neqb reader (sender message))
        (readBy message) in
    if (length otherReaders =? 0)%nat then NotReadYet
    else
      ReadByOthers (length otherReaders)
        (if (length otherReaders =? 1)%nat then lit "person"
         else lit "people")
        otherReaders.

(** The element [MessageBubble] renders: its message, the two optional
    classes, the [data-message-id] attribute and the receipt line. *)
Record bubble : Type := mkBubble {
  bubble_message : Message;
  own_message_class : bool;
  system_message_class : bool;
  data_message_id_attr : jsstring;
  receipt_line : receipt_view
}.

Definition MessageBubble (message : Message) (isOwnMessage : bool)
    : bubble :=
  {| bubble_message := message;
     own_message_class := isOwnMessage;
     system_message_class := str_eqb (sender message) (lit "System");
     data_message_id_attr := id message;
     receipt_line := ReadReceiptDisplay message |}.

(** [MessageList]: the bubbles, in the order of the same stable sort by
    timestamp the server uses for the replay. *)
Definition MessageList (messages : list Message) (currentUser : jsstring)
    : list bubble :=
  map (fun message =>
         MessageBubble message (str_eqb (sender message) currentUser))
    (Server.sort_by_time messages).

(** The [disabled] attribute of the Send button of [MessageInput]. *)
Definition send_disabled (disabled : bool) (input : jsstring) : bool :=
  disabled || str_eqb (trim input) [].


(** The observer entry of a bubble: [getAttribute("data-message-id")] on
    the element and whether it intersects the container. *)
Definition entry_of (in_view : bool) (b : bubble) : Client.entry :=
  {| Client.isIntersecting := in_view;
     Client.data_message_id := Some (data_message_id_attr b) |}.

End View.

(** ** The [App] component *)

Module App.

(** The component's state: [core] holds [messages], [username] and
    [socketRef.current]; the other fields are the remaining [useState]
    cells. [usernameRef] and [hasUsernameRef] follow [username] and
    [hasUsername]. *)
Record State : Type := mkState {
  core : Client.State;
  input : jsstring;
  hasUsername : bool;
  onlineUsers : list jsstring;
  connectionError : option jsstring;
  changingUsername : bool;
  oldUsername : jsstring
}.

Definition initial : State :=
  {| core := Client.initial; input := []; hasUsername := false;
     onlineUsers := []; connectionError := None;
     changingUsername := false; oldUsername := [] |}.

Definition username (st : State) : jsstring := Client.username (core st).
Definition messages (st : State) : list Message := Client.messages (core st).
Definition socket (st : State) : option bool := Client.socket (core st).
Definition connected (st : State) : bool := Client.connected (core st).

(** What the handlers do to the socket and send through it, apart from
    read receipts. *)
Inductive action : Type :=
| emit_user_joined (name : jsstring)
| emit_change_username (old_name new_name : jsstring)
| emit_chat_message (msg_text msg_sender : jsstring)
| socket_open
| socket_connect
| socket_disconnect.

Definition set_core (st : State) (c : Client.State) : State :=
  {| core := c; input := input st; hasUsername := hasUsername st;
     onlineUsers := onlineUsers st; connectionError := connectionError st;
     changingUsername := changingUsername st;
     oldUsername := oldUsername st |}.

Definition setUsername (value : jsstring) (st : State) : State :=
  set_core st
    {| Client.messages := messages st; Client.username := value;
       Client.socket := socket st |}.

Definition set_socket (sock : option bool) (st : State) : State :=
  set_core st
    {| Client.messages := messages st; Client.username := username st;
       Client.socket := sock |}.

Definition setInput (value : jsstring) (st : State) : State :=
  {| core := core st; input := value; hasUsername := hasUsername st;
     onlineUsers := onlineUsers st; connectionError := connectionError st;
     changingUsername := changingUsername st;
     oldUsername := oldUsername st |}.

Definition setHasUsername (b : bool) (st : State) : State :=
  {| core := core st; input := input st; hasUsername := b;
     onlineUsers := onlineUsers st; connectionError := connectionError st;
     changingUsername := changingUsername st;
     oldUsername := oldUsername st |}.

Definition setOnlineUsers (l : list jsstring) (st : State) : State :=
  {| core := core st; input := input st; hasUsername := hasUsername st;
     onlineUsers := l; connectionError := connectionError st;
     changingUsername := changingUsername st;
     oldUsername := oldUsername st |}.

Definition setConnectionError (e : option jsstring) (st : State) : State :=
  {| core := core st; input := input st; hasUsername := hasUsername st;
     onlineUsers := onlineUsers st; connectionError := e;
     changingUsername := changingUsername st;
     oldUsername := oldUsername st |}.

Definition setChangingUsername (b : bool) (st : State) : State :=
  {| core := core st; input := input st; hasUsername := hasUsername st;
     onlineUsers := onlineUsers st; connectionError := connectionError st;
     changingUsername := b; oldUsername := oldUsername st |}.

Definition setOldUsername (value : jsstring) (st : State) : State :=
  {| core := core st; input := input st; hasUsername := hasUsername st;
     onlineUsers := onlineUsers st; connectionError := connectionError st;
     changingUsername := changingUsername st; oldUsername := value |}.

(** The body of the connection effect, run on mount. *)
Definition connectionEffect (st : State) : State * list action :=
  match socket st with
  | None => (set_socket (Some false) st, [socket_open])
  | Some _ => (st, [])
  end.

Definition handleOnlineUsers (users : list jsstring) (st : State) : State :=
  setOnlineUsers users st.


(** [handleConnectError]; [error_message] is [error.message]. *)
Definition handleConnectError (error_message : jsstring) (st : State)
    : State * list action :=
  (set_socket None
     (setConnectionError
        (Some
           (lit "Failed to connect to the chat server. Please check your connection or try again later. Error: "
              ++ error_message)) st),
   match socket st with
   | Some _ => [socket_disconnect]
   | None => []
   end).

Inductive reason : Type :=
| io_server_disconnect
| io_client_disconnect
| other_reason.

(** [handleDisconnect] *)
Definition handleDisconnect (r : reason) (st : State) : State :=
  setOnlineUsers []
    match r with
    | io_server_disconnect =>
        setConnectionError (Some (lit "Disconnected by the server.")) st
    | io_client_disconnect => st
    | other_reason =>
        setConnectionError
          (Some
             (lit "Lost connection to the server. Attempting to reconnect..."))
          st
    end.

(** The body of the effect on [username], [hasUsername],
    [changingUsername] and [oldUsername]. *)
Definition joinEffect (st : State) : State * list action :=
  if truthy (username st) && hasUsername st && connected st then
    let trimmedUsername := trim (username st) in
    if changingUsername st && str_neqb trimmedUsername (oldUsername st)
    then
      (setOldUsername [] (setChangingUsername false st),
       [emit_change_username (oldUsername st) trimmedUsername])
    else if negb (changingUsername st) then
      (st, [emit_user_joined trimmedUsername])
    else (st, [])
  else (st, []).

(** [handleMessageSubmit] *)
Definition handleMessageSubmit (st : State) : State * list action :=
  let trimmedInput := trim (input st) in
  if truthy trimmedInput && hasUsername st && connected st then
    (setInput [] st, [emit_chat_message trimmedInput (username st)])
  else if negb (connected st) then
    (setConnectionError
       (Some (lit "Not connected. Cannot send message.")) st, [])
  else (st, []).

(** [handleUsernameUpdate] *)
Definition handleUsernameUpdate (newUsername : jsstring) (st : State)
    : State :=
  if str_eqb newUsername (oldUsername st) then
    setOldUsername [] (setHasUsername true (setChangingUsername false st))
  else if connected st then
    setHasUsername true (setUsername newUsername st)
  else
    setHasUsername true
      (setChangingUsername false
         (setConnectionError
            (Some (lit "Not connected. Cannot change username.")) st)).

(** [handleUsernameSubmit] *)
Definition handleUsernameSubmit (st : State) : State * list action :=
  let trimmedUsername := trim (username st) in
  if truthy trimmedUsername then
    match socket st with
    | None =>
        (setConnectionError
           (Some (lit "Connection not ready. Please try again or reload."))
           (set_socket (Some false) st),
         [socket_open])
    | Some is_connected =>
        if changingUsername st then
          (handleUsernameUpdate trimmedUsername st, [])
        else
          (setHasUsername true st,
           if negb is_connected then [socket_connect] else [])
    end
  else (st, []).

(** [handleChangeUsername] *)
Definition handleChangeUsername (st : State) : State :=
  if connected st then
    setHasUsername false
      (setChangingUsername true (setOldUsername (username st) st))
  else
    setConnectionError
      (Some (lit "Not connected. Cannot change username.")) st.

(** [handleTrueLogout] on the whole state. *)
Definition handleTrueLogout (st : State) : State * list action :=
  match socket st with
  | Some _ =>
      ({| core := Client.handleTrueLogout (core st); input := input st;
          hasUsername := false; onlineUsers := [];
          connectionError := None; changingUsername := false;
          oldUsername := [] |},
       [socket_disconnect])
  | None => (st, [])
  end.

(** The dependency array of [joinEffect]. *)
Definition joinEffect_deps (st : State)
    : jsstring * bool * bool * jsstring :=
  (username st, hasUsername st, changingUsername st, oldUsername st).

(** After a render the effect runs when a dependency differs from the
    previous render's; its own state updates cause a further render. *)
Fixpoint run_effects (fuel : nat) (prev st : State) : State * list action :=
  match fuel with
  | O => (st, [])
  | S fuel' =>
      if bool_decide (joinEffect_deps prev = joinEffect_deps st) then (st, [])
      else
        let '(st1, out1) := joinEffect st in
        let '(st2, out2) := run_effects fuel' st st1 in
        (st2, out1 ++ out2)
  end.

(** What the user does. *)
Inductive ui_event : Type :=
| TypeUsername (value : jsstring)
| TypeInput (value : jsstring)
| SubmitUsername
| SubmitMessage
| ClickChangeUsername
| ClickLogout.

Definition handle (st : State) (ev : ui_event) : State * list action :=
  match ev with
  | TypeUsername value => (setUsername value st, [])
  | TypeInput value => (setInput value st, [])
  | SubmitUsername => handleUsernameSubmit st
  | SubmitMessage => handleMessageSubmit st
  | ClickChangeUsername => (handleChangeUsername st, [])
  | ClickLogout => handleTrueLogout st
  end.

(** A handler, then the effect until the state settles; three rounds
    always settle it, as is proved below. *)
Definition dispatch (st : State) (ev : ui_event) : State * list action :=
  let '(st1, out1) := handle st ev in
  let '(st2, out2) := run_effects 3 st st1 in
  (st2, out1 ++ out2).

Fixpoint dispatch_all (st : State) (evs : list ui_event)
    : State * list action :=
  match evs with
  | [] => (st, [])
  | ev :: evs' =>
      let '(st1, out1) := dispatch st ev in
      let '(st2, out2) := dispatch_all st1 evs' in
      (st2, out1 ++ out2)
  end.

End App.

(** ** More vocabulary *)

Section MoreVocabulary.

(** The id [uuidv4()] hands to the handler of an event, when the event
    carries one. *)
Definition event_uuid (e : Server.event) : option jsstring :=
  match e with
  | Server.UserJoined _ _ uuid _ => Some uuid
  | Server.ChangeUsername _ _ _ uuid _ => Some uuid
  | Server.ChatMessage _ _ _ uuid _ => Some uuid
  | Server.ReadReceipt _ _ _ => None
  | Server.Disconnect _ uuid _ => Some uuid
  end.

Definition uuids (es : list Server.event) : list jsstring :=
  omap event_uuid es.

(** No record lists a reader twice. *)
Definition readers_distinct (log : list Message) : Prop :=
  Forall (fun m => NoDup (readBy m)) log.

(** A record not sent as "System" has its sender as first reader. *)
Definition sender_reads_first (log : list Message) : Prop :=
  Forall (fun m => sender m <> lit "System" ->
                   head (readBy m) = Some (sender m)) log.

(** What of a server trace changes the mirror of the client on socket
    [sid]: the broadcasts of records and the pushes to that socket. *)
Definition deliveries_for (sid : jsstring) (out : list Server.emit)
    : list Client.delivery :=
  omap (fun e =>
          match e with
          | Server.io_emit (Server.chat_message m) =>
              Some (Client.PushMessage m)
          | Server.io_emit (Server.message_updated m) =>
              Some (Client.PushMessageUpdated m)
          | Server.io_emit (Server.online_users _) => None
          | Server.socket_emit sid' (Server.chat_message m) =>
              if str_eqb sid' sid then Some (Client.PushMessage m) else None
          | Server.socket_emit _ _ => None
          end) out.

(** The current user has not sent and not read the message. *)
Definition unread_by (st : Client.State) (m : Message) : bool :=
  str_neqb (sender m) (Client.username st)
  && negb (includes (readBy m) (Client.username st)).

Definition receipt_for (st : Client.State) (m : Message) : ReadReceipt :=
  {| messageId := id m; reader := Client.username st |}.

(** The timestamps of the log never decrease. *)
Definition in_time_order (log : list Message) : Prop :=
  StronglySorted by_time log.

(** The socket an event arrives on. *)
Definition event_socket (e : Server.event) : jsstring :=
  match e with
  | Server.UserJoined sid _ _ _ => sid
  | Server.ChangeUsername sid _ _ _ _ => sid
  | Server.ChatMessage sid _ _ _ _ => sid
  | Server.ReadReceipt sid _ _ => sid
  | Server.Disconnect sid _ _ => sid
  end.

Definition is_disconnect (e : Server.event) : bool :=
  match e with
  | Server.Disconnect _ _ _ => true
  | _ => false
  end.

(** The connections that are live after a trace: a socket is live from
    its first event until its "disconnect" event. *)
Fixpoint live_sockets (conns : list jsstring) (es : list Server.event)
    : list jsstring :=
  match es with
  | [] => conns
  | e :: es' =>
      live_sockets
        (if is_disconnect e then
           List.filter (fun c => str_neqb c (event_socket e)) conns
         else if includes conns (event_socket e) then conns
         else conns ++ [event_socket e])
        es'
  end.

(** The name is bound to at least one of the live connections. *)
Definition bound_live (conns : list jsstring) (s : Server.State)
    (name : jsstring) : Prop :=
  exists sid, sid ∈ conns /\ map_get sid (Server.users s) = Some name.

(** A join does not submit the empty name. *)
Definition joins_named (e : Server.event) : Prop :=
  match e with
  | Server.UserJoined _ username _ _ => username <> []
  | _ => True
  end.

(** A connection joins under the empty name and disconnects, then
    another one joins as "Bea". *)
Definition ghost_scenario : list Server.event :=
  [Server.UserJoined (lit "c1") [] (lit "u1") 1000;
   Server.Disconnect (lit "c1") (lit "u2") 2000;
   Server.UserJoined (lit "c2") (lit "Bea") (lit "u3") 3000].

End MoreVocabulary.

(** ** Facts about the [Map] model *)

Section MapFacts.
Context {V : Type}.
Implicit Types (m : Map V) (k : jsstring) (v : V).

Lemma str_eqb_true a b : str_eqb a b = true <-> a = b.
Proof. unfold str_eqb. apply bool_decide_eq_true. Qed.

Lemma str_eqb_false a b : str_eqb a b = false <-> a <> b.
Proof. unfold str_eqb. apply bool_decide_eq_false. Qed.

Lemma str_eqb_refl a : str_eqb a a = true.
Proof. by apply str_eqb_true. Qed.

Lemma str_neqb_true a b : str_neqb a b = true <-> a <> b.
Proof. unfold str_neqb. rewrite negb_true_iff. apply str_eqb_false. Qed.

Lemma str_neqb_false a b : str_neqb a b = false <-> a = b.
Proof. unfold str_neqb. rewrite negb_false_iff. apply str_eqb_true. Qed.

Lemma map_get_Some_elem k v m : map_get k m = Some v -> (k, v) ∈ m.
Proof.
  induction m as [|[k' v'] m IH]; simpl; [done|].
  destruct (str_eqb k k') eqn:E.
  - apply str_eqb_true in E as ->. intros [= ->]. left.
  - intros H. right. auto.
Qed.

Lemma map_get_None k m : map_get k m = None <-> k ∉ map_keys m.
Proof.
  induction m as [|[k' v'] m IH]; simpl.
  - split; [intros _ H; inversion H | done].
  - rewrite not_elem_of_cons. destruct (str_eqb k k') eqn:E.
    + apply str_eqb_true in E. split; [done | tauto].
    + apply str_eqb_false in E. rewrite IH. tauto.
Qed.

Lemma elem_map_get k v m : map_wf m -> (k, v) ∈ m -> map_get k m = Some v.
Proof.
  unfold map_wf. induction m as [|[k' v'] m IH]; simpl.
  - intros _ H. inversion H.
  - rewrite NoDup_cons. intros [Hk Hnd] Hin.
    apply elem_of_cons in Hin as [[= -> ->]|Hin].
    + by rewrite str_eqb_refl.
    + destruct (str_eqb k k') eqn:E; [|auto].
      apply str_eqb_true in E as ->. exfalso. apply Hk.
      unfold map_keys. apply list_elem_of_fmap. by exists (k', v).
Qed.

Lemma map_get_set_eq k v m : map_get k (map_set k v m) = Some v.
Proof.
  induction m as [|[k' v'] m IH]; simpl.
  - by rewrite str_eqb_refl.
  - destruct (str_eqb k k') eqn:E; simpl; by rewrite ?str_eqb_refl, ?E.
Qed.

Lemma map_get_set_ne k k' v m :
  k <> k' -> map_get k' (map_set k v m) = map_get k' m.
Proof.
  intros Hne. induction m as [|[k0 v0] m IH]; simpl.
  - apply not_eq_sym, str_eqb_false in Hne. by rewrite Hne.
  - destruct (str_eqb k k0) eqn:E; simpl.
    + apply str_eqb_true in E as <-.
      apply not_eq_sym, str_eqb_false in Hne. by rewrite Hne.
    + by rewrite IH.
Qed.

Lemma map_keys_set k v m :
  map_keys (map_set k v m) =
    if bool_decide (k ∈ map_keys m) then map_keys m else map_keys m ++ [k].
Proof.
  induction m as [|[k0 v0] m IH]; simpl; [done|].
  destruct (str_eqb k k0) eqn:E; simpl.
  - apply str_eqb_true in E as <-.
    rewrite bool_decide_eq_true_2; [done | left].
  - apply str_eqb_false in E. rewrite IH.
    destruct (bool_decide (k ∈ map_keys m)) eqn:B.
    + apply bool_decide_eq_true in B.
      rewrite bool_decide_eq_true_2; [done | by right].
    + apply bool_decide_eq_false in B.
      rewrite bool_decide_eq_false_2; [done|].
      rewrite not_elem_of_cons. done.
Qed.

Lemma map_wf_set k v m : map_wf m -> map_wf (map_set k v m).
Proof.
  unfold map_wf. intros Hnd. rewrite map_keys_set. case_bool_decide; [done|].
  apply NoDup_app. split_and!; [done| |apply NoDup_singleton].
  intros x Hx Hx'. apply list_elem_of_singleton in Hx' as ->. done.
Qed.

Lemma map_keys_delete_subset k m x :
  x ∈ map_keys (map_delete k m) -> x ∈ map_keys m.
Proof.
  induction m as [|[k0 v0] m IH]; simpl; [done|].
  destruct (str_eqb k k0); simpl.
  - by right.
  - rewrite !elem_of_cons. intros [->|H]; auto.
Qed.

Lemma map_wf_delete k m : map_wf m -> map_wf (map_delete k m).
Proof.
  unfold map_wf. induction m as [|[k0 v0] m IH]; simpl; [done|].
  rewrite NoDup_cons. intros [Hk Hnd]. destruct (str_eqb k k0); simpl; [done|].
  apply NoDup_cons. split; [|auto].
  intros H. apply Hk. by eapply map_keys_delete_subset.
Qed.

Lemma map_get_delete_eq k m : map_wf m -> map_get k (map_delete k m) = None.
Proof.
  unfold map_wf. induction m as [|[k0 v0] m IH]; simpl; [done|].
  rewrite NoDup_cons. intros [Hk Hnd]. destruct (str_eqb k k0) eqn:E; simpl.
  - apply str_eqb_true in E as ->. by apply map_get_None.
  - rewrite E. auto.
Qed.

Lemma map_get_delete_ne k k' m :
  k <> k' -> map_get k' (map_delete k m) = map_get k' m.
Proof.
  intros Hne. induction m as [|[k0 v0] m IH]; simpl; [done|].
  destruct (str_eqb k k0) eqn:E; simpl.
  - apply str_eqb_true in E as <-.
    apply not_eq_sym, str_eqb_false in Hne. by rewrite Hne.
  - by rewrite IH.
Qed.

(** On a well-formed map the values listed are exactly the values
    some key is bound to. *)
Lemma elem_of_map_values v m :
  map_wf m -> v ∈ map_values m <-> exists k, map_get k m = Some v.
Proof.
  intros Hwf. unfold map_values. rewrite list_elem_of_fmap. split.
  - intros [[k v'] [-> Hin]]. exists k. by apply elem_map_get.
  - intros [k Hk]. exists (k, v). split; [done|]. by apply map_get_Some_elem.
Qed.

End MapFacts.

(** ** The server's read-receipt handler *)

Section ReadReceipt.
Import Server.
Implicit Types (s : State) (mid r : jsstring).

Lemma includes_true arr x : includes arr x = true <-> x ∈ arr.
Proof. unfold includes. apply bool_decide_eq_true. Qed.

Lemma includes_false arr x : includes arr x = false <-> x ∉ arr.
Proof. unfold includes. apply bool_decide_eq_false. Qed.

Lemma first_with_id_find mid log i m :
  first_with_id mid log i m <->
  list_find (fun msg => id msg = mid) log = Some (i, m).
Proof. unfold first_with_id. by rewrite list_find_Some. Qed.

Lemma unknown_id_find mid log :
  ~ known_id mid log <-> list_find (fun msg => id msg = mid) log = None.
Proof.
  rewrite list_find_None, Forall_forall. unfold known_id. split.
  - intros H x Hx Hid. apply H. eauto.
  - intros H [m [Hm Hid]]. by apply (H m).
Qed.

Lemma read_receipt_new mid r s i m :
  first_with_id mid (messages s) i m -> r ∉ readBy m ->
  read_receipt mid r s =
    ({| users := users s;
        messages := <[i := readBy_push m r]> (messages s) |},
     [io_emit (message_updated (readBy_push m r))]).
Proof.
  intros Hf Hr. unfold read_receipt.
  apply first_with_id_find in Hf. rewrite Hf.
  apply includes_false in Hr. by rewrite Hr.
Qed.

Lemma read_receipt_duplicate mid r s i m :
  first_with_id mid (messages s) i m -> r ∈ readBy m ->
  read_receipt mid r s = (s, []).
Proof.
  intros Hf Hr. unfold read_receipt.
  apply first_with_id_find in Hf. rewrite Hf.
  apply includes_true in Hr. by rewrite Hr.
Qed.

Lemma read_receipt_unknown mid r s :
  ~ known_id mid (messages s) -> read_receipt mid r s = (s, []).
Proof.
  intros H. unfold read_receipt. apply unknown_id_find in H. by rewrite H.
Qed.

Lemma first_with_id_after_push mid r log i m :
  first_with_id mid log i m ->
  first_with_id mid (<[i := readBy_push m r]> log) i (readBy_push m r).
Proof.
  intros (Hi & Hid & Hlt). split_and!.
  - apply list_lookup_insert_eq. by eapply lookup_lt_Some.
  - done.
  - intros j m' Hj Hji. rewrite list_lookup_insert_ne in Hj by lia. eauto.
Qed.

(** C1. A read receipt for message id [mid] from reader [r] adds [r] to
    the readers of the record with that id and broadcasts the whole
    updated record exactly when that record is in the log and [r] is not
    yet among its readers. When [r] is already there, or no record has
    the id, the handler changes nothing and emits nothing; being a total
    function, it raises nothing. A second application of the same
    receipt is always such a no-op, so the readers change at most
    once. *)
Theorem read_receipt_adds_reader_once mid r s :
  (forall i m, first_with_id mid (messages s) i m -> r ∉ readBy m ->
     read_receipt mid r s =
       ({| users := users s;
           messages := <[i := readBy_push m r]> (messages s) |},
        [io_emit (message_updated (readBy_push m r))])
     /\ readBy (readBy_push m r) = readBy m ++ [r])
  /\ (forall i m, first_with_id mid (messages s) i m -> r ∈ readBy m ->
        read_receipt mid r s = (s, []))
  /\ (~ known_id mid (messages s) -> read_receipt mid r s = (s, []))
  /\ (read_receipt mid r s <> (s, []) <->
        exists i m, first_with_id mid (messages s) i m /\ r ∉ readBy m)
  /\ read_receipt mid r (read_receipt mid r s).1 =
       ((read_receipt mid r s).1, []).
Proof.
  split_and!.
  - intros i m Hf Hr. split; [by apply read_receipt_new | done].
  - apply read_receipt_duplicate.
  - apply read_receipt_unknown.
  - split.
    + intros Hne.
      destruct (list_find (fun msg => id msg = mid) (messages s))
        as [[i m]|] eqn:E.
      * apply first_with_id_find in E. exists i, m. split; [done|].
        intros Hin. apply Hne. by eapply read_receipt_duplicate.
      * exfalso. apply Hne. by apply read_receipt_unknown, unknown_id_find.
    + intros (i & m & Hf & Hr). rewrite (read_receipt_new mid r s i m) by done.
      intros [= _ ?].
  - destruct (list_find (fun msg => id msg = mid) (messages s))
      as [[i m]|] eqn:E.
    + apply first_with_id_find in E.
      destruct (decide (r ∈ readBy m)) as [Hin|Hnin].
      * rewrite (read_receipt_duplicate mid r s i m) by done. simpl.
        by eapply read_receipt_duplicate.
      * rewrite (read_receipt_new mid r s i m) by done. simpl.
        eapply read_receipt_duplicate.
        -- simpl. by apply first_with_id_after_push.
        -- simpl. apply elem_of_app. right. left.
    + apply unknown_id_find in E.
      rewrite (read_receipt_unknown mid r s) by done. simpl.
      by apply read_receipt_unknown.
Qed.

End ReadReceipt.

(** ** The registry and the "online users" broadcast *)

Section OnlineUsers.
Import Server.
Implicit Types (s : State) (e : event).

(** What a join appends to the log: nothing or one system message. The
    rest of the handler does not depend on which. *)
Lemma user_joined_shape sid username uuid now s :
  exists notice : list Message,
    (length notice <= 1)%nat /\
    let s2 := {| users := map_set sid username (users s);
                 messages := messages s ++ notice |} in
    user_joined sid username uuid now s =
      (s2,
       map (fun m => io_emit (chat_message m)) notice
         ++ map (fun m => socket_emit sid (chat_message m))
              (recentMessages s2)
         ++ broadcastOnlineUsers s2).
Proof.
  unfold user_joined, push_and_emit.
  destruct (map_get sid (users s)) as [p|];
    [destruct (truthy p); [destruct (str_neqb p username)|]|];
    simpl;
    try (eexists [_]; split; [simpl; lia | reflexivity]).
  exists []. split; [simpl; lia|]. simpl. rewrite app_nil_r.
  by destruct s.
Qed.

Lemma step_wf s e : map_wf (users s) -> map_wf (users (step s e).1).
Proof.
  intros Hwf. destruct e as [sid n u t|sid o n u t|sid tx sd u t|sid m r|sid u t];
    simpl.
  - destruct (user_joined_shape sid n u t s) as (nt & _ & ->). simpl.
    by apply map_wf_set.
  - unfold change_username.
    destruct (str_neqb o n && str_neqb (trim n) []); simpl; [|done].
    by apply map_wf_set.
  - done.
  - unfold read_receipt.
    destruct (list_find _ _) as [[i msg]|]; [|done].
    by destruct (negb _).
  - unfold disconnect. destruct (map_get sid (users s)) as [n|]; [|done].
    destruct (truthy n); simpl; [|done]. by apply map_wf_delete.
Qed.

(** Every handler's trace is a part without "online users" events,
    followed, when the handler touched the registry, by one broadcast of
    the registry as the handler leaves it. *)
Lemma step_online_shape s e :
  exists pre,
    (forall names, io_emit (online_users names) ∉ pre) /\
    (((step s e).2 = pre /\ users (step s e).1 = users s) \/
     (step s e).2 = pre ++ broadcastOnlineUsers (step s e).1).
Proof.
  destruct e as [sid n u t|sid o n u t|sid tx sd u t|sid m r|sid u t];
    simpl.
  - destruct (user_joined_shape sid n u t s) as (nt & _ & ->). simpl.
    eexists (_ ++ _). split; [|right; by rewrite app_assoc].
    intros names. rewrite elem_of_app, !list_elem_of_fmap.
    intros [(m & [=] & _)|(m & [=] & _)].
  - unfold change_username, push_and_emit.
    destruct (str_neqb o n && str_neqb (trim n) []); simpl.
    + eexists [_]. split; [|by right].
      intros names. rewrite list_elem_of_singleton. intros [=].
    + exists []. split; [|by left]. intros names H. inversion H.
  - eexists [_]. split; [|by left].
    intros names. rewrite list_elem_of_singleton. intros [=].
  - unfold read_receipt.
    destruct (list_find _ _) as [[i msg]|];
      [destruct (negb _)|]; simpl.
    + eexists [_]. split; [|by left].
      intros names. rewrite list_elem_of_singleton. intros [=].
    + exists []. split; [|by left]. intros names H. inversion H.
    + exists []. split; [|by left]. intros names H. inversion H.
  - unfold disconnect, push_and_emit.
    destruct (map_get sid (users s)) as [n|]; [destruct (truthy n)|];
      simpl.
    + eexists [_]. split; [|by right].
      intros names. rewrite list_elem_of_singleton. intros [=].
    + exists []. split; [|by left]. intros names H. inversion H.
    + exists []. split; [|by left]. intros names H. inversion H.
Qed.

(** The payload against the registry alone. From any registry, the
    "online users" payload a handler broadcasts is the registry's list of
    values as the handler leaves it, so a name is in the payload exactly
    when some entry of [users] maps to it, whether or not the socket of
    that entry is still connected; a handler that changes the registry
    ends with that broadcast. In particular a disconnect leaves in the
    payload the name of every other entry, and after two joins as "Ana"
    and one disconnect the payload still lists "Ana". *)
Theorem online_users_exactly_bound_names s e :
  map_wf (users s) ->
  map_wf (users (step s e).1)
  /\ (forall names, io_emit (online_users names) ∈ (step s e).2 ->
        names = getOnlineUsers (step s e).1 /\
        forall name, name ∈ names <-> bound (step s e).1 name)
  /\ (users (step s e).1 <> users s ->
        last (step s e).2 =
          Some (io_emit (online_users (getOnlineUsers (step s e).1))))
  /\ (forall sid uuid now sid' name,
        e = Disconnect sid uuid now -> sid' <> sid ->
        map_get sid' (users s) = Some name -> bound (step s e).1 name)
  /\ last (run initial ana_scenario).2 =
       Some (io_emit (online_users [lit "Ana"])).
Proof.
  intros Hwf. pose proof (step_wf s e Hwf) as Hwf'.
  destruct (step_online_shape s e) as (pre & Hpre & Hshape).
  split_and!.
  - done.
  - intros names Hin.
    assert (names = getOnlineUsers (step s e).1) as ->.
    { destruct Hshape as [[Hout _]|Hout]; rewrite Hout in Hin.
      - by apply Hpre in Hin.
      - apply elem_of_app in Hin as [Hin|Hin]; [by apply Hpre in Hin|].
        unfold broadcastOnlineUsers in Hin.
        by apply list_elem_of_singleton in Hin as [= ->]. }
    split; [done|]. intros name. unfold getOnlineUsers, bound.
    by apply elem_of_map_values.
  - intros Hch. destruct Hshape as [[_ Heq]|Hout]; [done|].
    rewrite Hout. unfold broadcastOnlineUsers. by rewrite last_snoc.
  - intros sid uuid now sid' name -> Hne Hget. exists sid'. simpl.
    unfold disconnect. destruct (map_get sid (users s)) as [n|]; [|done].
    destruct (truthy n); simpl; [|done].
    by rewrite map_get_delete_ne.
  - vm_compute. reflexivity.
Qed.

(** The theorem at the empty registry and a first join. *)
Lemma online_users_exactly_bound_names_witness :
  map_wf (users initial) /\
  forall names,
    io_emit (online_users names)
      ∈ (step initial (UserJoined (lit "c1") (lit "Ana") (lit "u1") 1000)).2 ->
    names = [lit "Ana"].
Proof.
  split.
  - constructor.
  - intros names Hin.
    apply (online_users_exactly_bound_names initial
             (UserJoined (lit "c1") (lit "Ana") (lit "u1") 1000)) in Hin.
    + exact (proj1 Hin).
    + constructor.
Defined.

End OnlineUsers.

(** ** Joining and leaving *)

Section JoinLeave.
Import Server.
Implicit Types (s : State).

Lemma truthy_true n : truthy n = true <-> n <> [].
Proof. by destruct n. Qed.

(** The join handler on the three cases of its comment, for a socket
    whose previous binding, if any, is a non-empty name. *)
Lemma user_joined_notices sid username uuid now s :
  let res := user_joined sid username uuid now s in
  (map_get sid (users s) = None ->
     let notice :=
       systemMessage uuid (username ++ lit " joined the chat") now
         [username] in
     messages res.1 = messages s ++ [notice] /\
     broadcast_messages res.2 = [notice])
  /\ (forall previous,
        map_get sid (users s) = Some previous -> previous <> [] ->
        previous <> username ->
        let notice :=
          systemMessage uuid
            (previous ++ lit " changed their name to " ++ username) now
            [username] in
        messages res.1 = messages s ++ [notice] /\
        broadcast_messages res.2 = [notice])
  /\ (map_get sid (users s) = Some username -> username <> [] ->
        messages res.1 = messages s /\ broadcast_messages res.2 = [])
  /\ map_get sid (users res.1) = Some username.
Proof.
  assert (Hb : forall l out,
    broadcast_messages
      (map (fun m => socket_emit sid (chat_message m)) l
         ++ broadcastOnlineUsers out) = []).
  { intros l out. unfold broadcast_messages. rewrite omap_app. simpl.
    induction l; simpl; auto. }
  simpl. unfold user_joined, push_and_emit. split_and!.
  - intros ->. simpl. split; [done|].
    unfold broadcast_messages in *. simpl. f_equal. apply Hb.
  - intros previous -> Hne Hdiff. apply truthy_true in Hne. rewrite Hne.
    apply str_neqb_true in Hdiff. rewrite Hdiff. simpl. split; [done|].
    unfold broadcast_messages in *. simpl. f_equal. apply Hb.
  - intros -> Hne. apply truthy_true in Hne. rewrite Hne.
    assert (str_neqb username username = false) as ->
      by by apply str_neqb_false.
    simpl. split; [done|]. apply Hb.
  - destruct (map_get sid (users s)) as [p|];
      [destruct (truthy p); [destruct (str_neqb p username)|]|];
      simpl; apply map_get_set_eq.
Qed.

(** C4. A connection bound to the empty name: a join under "Bob" is
    announced as "Bob joined the chat", not as a change of name from the
    empty name, and a join under the empty name again appends a second
    " joined the chat" notice instead of none. The connection ends up
    bound to the submitted name in both runs. *)
Theorem user_joined_after_empty_name :
  let c1 := lit "c1" in
  let rejoin_as_bob :=
    run initial (empty_name_then (UserJoined c1 (lit "Bob") (lit "u1") 1000)) in
  let rejoin_unchanged :=
    run initial (empty_name_then (UserJoined c1 [] (lit "u1") 1000)) in
  map_get c1 (users (step initial (UserJoined c1 [] (lit "u0") 500)).1)
    = Some []
  /\ messages rejoin_as_bob.1 =
       [systemMessage (lit "u0") (lit " joined the chat") 500 [[]];
        systemMessage (lit "u1") (lit "Bob joined the chat") 1000
          [lit "Bob"]]
  /\ users rejoin_as_bob.1 = [(c1, lit "Bob")]
  /\ messages rejoin_unchanged.1 =
       [systemMessage (lit "u0") (lit " joined the chat") 500 [[]];
        systemMessage (lit "u1") (lit " joined the chat") 1000 [[]]]
  /\ users rejoin_unchanged.1 = [(c1, [])].
Proof. vm_compute. repeat split. Qed.

(** The disconnect handler for a socket bound to a non-empty name: the
    departure notice, with no readers, is appended and broadcast first,
    the binding is removed, and the registry after the removal is
    broadcast last. *)
Lemma disconnect_bound sid uuid now s name :
  map_wf (users s) ->
  map_get sid (users s) = Some name -> name <> [] ->
  let notice := systemMessage uuid (name ++ lit " left the chat") now [] in
  let users' := map_delete sid (users s) in
  disconnect sid uuid now s =
    ({| users := users'; messages := messages s ++ [notice] |},
     [io_emit (chat_message notice);
      io_emit (online_users (map_values users'))])
  /\ map_get sid users' = None.
Proof.
  intros Hwf Hget Hne. simpl. split; [|by apply map_get_delete_eq].
  unfold disconnect. rewrite Hget. apply truthy_true in Hne.
  by rewrite Hne.
Qed.

Lemma disconnect_unbound sid uuid now s :
  map_get sid (users s) = None -> disconnect sid uuid now s = (s, []).
Proof. intros H. unfold disconnect. by rewrite H. Qed.

(** C6. A connection bound to the empty name disconnects: the handler
    leaves the log and the registry as they were and emits nothing, so
    there is no " left the chat" notice, no "online users" broadcast,
    and the connection stays in the registry. *)
Theorem disconnect_after_empty_name :
  let c1 := lit "c1" in
  let joined := (step initial (UserJoined c1 [] (lit "u0") 500)).1 in
  map_get c1 (users joined) = Some []
  /\ disconnect c1 (lit "u1") 1000 joined = (joined, [])
  /\ users (run initial (empty_name_then (Disconnect c1 (lit "u1") 1000))).1
       = [(c1, [])]
  /\ messages (run initial (empty_name_then (Disconnect c1 (lit "u1") 1000))).1
       = [systemMessage (lit "u0") (lit " joined the chat") 500 [[]]].
Proof. vm_compute. repeat split. Qed.

End JoinLeave.

(** ** The log only grows *)

Section LogGrowth.
Import Server.
Implicit Types (s : State) (e : event) (log : list Message).

Lemma same_record_refl m : same_record_more_readers m m.
Proof. by repeat split. Qed.

Lemma same_record_trans m1 m2 m3 :
  same_record_more_readers m1 m2 -> same_record_more_readers m2 m3 ->
  same_record_more_readers m1 m3.
Proof.
  intros (? & ? & ? & ? & H12) (? & ? & ? & ? & H23).
  repeat split; try congruence. by etrans.
Qed.

Lemma log_only_grows_refl log : log_only_grows log log.
Proof. intros i m Hi. exists m. split; [done | apply same_record_refl]. Qed.

Lemma log_only_grows_trans log1 log2 log3 :
  log_only_grows log1 log2 -> log_only_grows log2 log3 ->
  log_only_grows log1 log3.
Proof.
  intros H12 H23 i m Hi.
  destruct (H12 i m Hi) as (m2 & Hi2 & Hm2).
  destruct (H23 i m2 Hi2) as (m3 & Hi3 & Hm3).
  exists m3. split; [done | by eapply same_record_trans].
Qed.

Lemma log_only_grows_prefix log log' :
  log `prefix_of` log' -> log_only_grows log log'.
Proof.
  intros [k ->] i m Hi. exists m. split; [|apply same_record_refl].
  by apply lookup_app_l_Some.
Qed.

Lemma log_only_grows_length log log' :
  log_only_grows log log' -> (length log <= length log')%nat.
Proof.
  intros H. destruct (decide (length log = 0)%nat) as [->|Hne]; [lia|].
  destruct (lookup_lt_is_Some_2 log (length log - 1)) as [m Hm]; [lia|].
  destruct (H _ _ Hm) as (m' & Hm' & _).
  apply lookup_lt_Some in Hm'. lia.
Qed.

(** Apart from the read-receipt handler, a handler only appends. *)
Lemma step_prefix s e :
  is_read_receipt e = false -> messages s `prefix_of` messages (step s e).1.
Proof.
  destruct e as [sid n u t|sid o n u t|sid tx sd u t|sid m r|sid u t];
    simpl; intros Hr; try done.
  - destruct (user_joined_shape sid n u t s) as (nt & _ & ->). simpl.
    by apply prefix_app_r.
  - unfold change_username, push_and_emit.
    destruct (str_neqb o n && str_neqb (trim n) []); simpl;
      [by apply prefix_app_r | done].
  - by apply prefix_app_r.
  - unfold disconnect, push_and_emit.
    destruct (map_get sid (users s)) as [n|]; [destruct (truthy n)|];
      simpl; [by apply prefix_app_r | done | done].
Qed.

Lemma read_receipt_grows mid r s :
  log_only_grows (messages s) (messages (read_receipt mid r s).1).
Proof.
  unfold read_receipt.
  destruct (list_find _ _) as [[i msg]|] eqn:E;
    [destruct (negb _)|]; simpl; try apply log_only_grows_refl.
  apply list_find_Some in E as (Hi & _ & _).
  intros j m Hj. destruct (decide (j = i)) as [->|Hne].
  - exists (readBy_push msg r). split.
    + apply list_lookup_insert_eq. by eapply lookup_lt_Some.
    + assert (m = msg) as -> by congruence.
      repeat split. simpl. intros x Hx. apply elem_of_app. by left.
  - exists m. split; [|apply same_record_refl].
    by rewrite list_lookup_insert_ne.
Qed.

Lemma step_grows s e : log_only_grows (messages s) (messages (step s e).1).
Proof.
  destruct (is_read_receipt e) eqn:E.
  - destruct e; try done. simpl. apply read_receipt_grows.
  - by apply log_only_grows_prefix, step_prefix.
Qed.

Lemma run_cons s e es :
  run s (e :: es) =
    ((run (step s e).1 es).1, (step s e).2 ++ (run (step s e).1 es).2).
Proof.
  simpl. destruct (step s e) as [s1 out1]. simpl.
  by destruct (run s1 es).
Qed.

(** C5. Along every sequence of events each record of the log stays at
    its index with its id, text, sender and timestamp, and keeps every
    reader it had, so no reader and no record is ever removed and the
    log never gets shorter. When the sequence has no read receipt, the
    old log is a prefix of the new one: only read-receipt processing
    changes the readers of a record. *)
Theorem readBy_only_grows s es :
  log_only_grows (messages s) (messages (run s es).1)
  /\ (length (messages s) <= length (messages (run s es).1))%nat
  /\ (forallb (fun e => negb (is_read_receipt e)) es = true ->
        messages s `prefix_of` messages (run s es).1).
Proof.
  assert (Hg : forall es s,
    log_only_grows (messages s) (messages (run s es).1)).
  { clear. induction es as [|e es IH]; intros s.
    - apply log_only_grows_refl.
    - rewrite run_cons. simpl.
      eapply log_only_grows_trans; [apply step_grows | apply IH]. }
  split_and!.
  - apply Hg.
  - apply log_only_grows_length, Hg.
  - revert s. induction es as [|e es IH]; intros s; simpl forallb.
    + done.
    + rewrite andb_true_iff, negb_true_iff. intros [He Hes].
      rewrite run_cons. simpl.
      etrans; [by apply step_prefix | by apply IH].
Qed.

End LogGrowth.

(** ** History replay on join *)

Section History.
Import Server.
Implicit Types (s : State) (l : list Message).

Lemma insert_by_time_perm m l : insert_by_time m l ≡ₚ m :: l.
Proof.
  induction l as [|x l IH]; simpl; [done|].
  destruct (timestamp m <=? timestamp x); [done|].
  rewrite IH. apply Permutation_swap.
Qed.

Lemma sort_by_time_perm l : sort_by_time l ≡ₚ l.
Proof.
  induction l as [|m l IH]; simpl; [done|].
  by rewrite insert_by_time_perm, IH.
Qed.

Lemma insert_by_time_sorted m l :
  StronglySorted by_time l -> StronglySorted by_time (insert_by_time m l).
Proof.
  induction l as [|x l IH]; simpl; intros Hs.
  - by repeat constructor.
  - apply StronglySorted_inv in Hs as [Hl Hx].
    destruct (timestamp m <=? timestamp x) eqn:E.
    + apply Z.leb_le in E. constructor; [by constructor|].
      constructor; [done|].
      eapply Forall_impl; [exact Hx|]. unfold by_time. intros; simpl in *. lia.
    + apply Z.leb_gt in E. constructor; [auto|].
      rewrite insert_by_time_perm. constructor; [|done].
      unfold by_time. lia.
Qed.

Lemma sort_by_time_sorted l : StronglySorted by_time (sort_by_time l).
Proof.
  induction l as [|m l IH]; simpl; [constructor|].
  by apply insert_by_time_sorted.
Qed.

Lemma slice_last_split {A} n (arr : list A) :
  take (length arr - n) arr ++ slice_last n arr = arr.
Proof. unfold slice_last. apply take_drop. Qed.

Lemma slice_last_length {A} n (arr : list A) :
  length (slice_last n arr) = (length arr `min` n)%nat.
Proof. unfold slice_last. rewrite length_drop. lia. Qed.

Lemma pushes_to_app sid out1 out2 :
  pushes_to sid (out1 ++ out2) = pushes_to sid out1 ++ pushes_to sid out2.
Proof. unfold pushes_to. apply omap_app. Qed.

Lemma pushes_to_broadcasts sid l :
  pushes_to sid (map (fun m => io_emit (chat_message m)) l) = [].
Proof. induction l as [|x l IH]; [done|]. exact IH. Qed.

Lemma pushes_to_socket sid l :
  pushes_to sid (map (fun m => socket_emit sid (chat_message m)) l) = l.
Proof.
  induction l as [|x l IH]; [done|].
  unfold pushes_to. cbn [map omap list_omap]. rewrite str_eqb_refl.
  f_equal. exact IH.
Qed.

Lemma pushes_to_replay sid notice l tail_state :
  pushes_to sid
    (map (fun m => io_emit (chat_message m)) notice
       ++ map (fun m => socket_emit sid (chat_message m)) l
       ++ broadcastOnlineUsers tail_state) = l.
Proof.
  rewrite !pushes_to_app, pushes_to_broadcasts, pushes_to_socket.
  simpl. apply app_nil_r.
Qed.

(** C7. On every join the trace is: the broadcast of the notice, if any;
    then one "chat message" push to the joining socket per replayed
    record; then the "online users" broadcast. The replayed records are
    in ascending timestamp order, there are at most 50 of them (50, or
    the whole log when it is shorter), and they are the most recent of
    the log: together with some older records, none newer than any
    replayed one, they make up the log. The log itself keeps all the
    records it had. *)
Theorem history_replay sid username uuid now s :
  let res := user_joined sid username uuid now s in
  let replay := pushes_to sid res.2 in
  (exists notice,
     res.2 =
       map (fun m => io_emit (chat_message m)) notice
         ++ map (fun m => socket_emit sid (chat_message m)) replay
         ++ broadcastOnlineUsers res.1)
  /\ StronglySorted by_time replay
  /\ (length replay <= 50)%nat
  /\ length replay = (length (messages res.1) `min` 50)%nat
  /\ (exists older,
        older ++ replay ≡ₚ messages res.1 /\
        forall a b, a ∈ older -> b ∈ replay -> timestamp a <= timestamp b)
  /\ messages s `prefix_of` messages res.1.
Proof.
  simpl.
  destruct (user_joined_shape sid username uuid now s) as (nt & _ & Heq).
  simpl in Heq. rewrite Heq. simpl. rewrite pushes_to_replay.
  set (s2 := {| users := map_set sid username (users s);
                messages := messages s ++ nt |}).
  pose proof (sort_by_time_sorted (messages s2)) as Hsorted.
  pose proof (slice_last_split messageHistoryLimit
                (sort_by_time (messages s2))) as Hsplit.
  fold (recentMessages s2) in Hsplit.
  assert (Hlen : length (recentMessages s2)
                 = (length (messages s2) `min` 50)%nat).
  { unfold recentMessages. rewrite slice_last_length.
    by rewrite (Permutation_length (sort_by_time_perm _)). }
  split_and!.
  - by exists nt.
  - rewrite <- Hsplit in Hsorted. by apply StronglySorted_app_1_r in Hsorted.
  - rewrite Hlen. lia.
  - exact Hlen.
  - eexists. split.
    + rewrite Hsplit. apply sort_by_time_perm.
    + intros a b Ha Hb. rewrite <- Hsplit in Hsorted.
      by apply (StronglySorted_app_1_elem_of _ _ _ a b) in Hsorted.
  - by apply prefix_app_r.
Qed.

End History.

(** ** Renaming *)

Section Rename.
Import Server.
Implicit Types (s : State) (n : jsstring).

Lemma trim_start_nil n :
  trim_start n = [] <-> Forall (fun c => is_whitespace c = true) n.
Proof.
  induction n as [|c n IH]; simpl.
  - split; [constructor | done].
  - rewrite Forall_cons. destruct (is_whitespace c) eqn:E.
    + rewrite IH. tauto.
    + split; [done | intros [? _]; done].
Qed.

Lemma trim_start_whitespace n :
  Forall (fun c => is_whitespace c = true) (trim_start n) ->
  trim_start n = [].
Proof.
  induction n as [|c n IH]; simpl; [done|].
  destruct (is_whitespace c) eqn:E; [done|].
  rewrite Forall_cons. intros [? _]. congruence.
Qed.

(** The trimmed string is empty exactly when every code unit of the
    string is white space. *)
Lemma trim_nil n :
  trim n = [] <-> Forall (fun c => is_whitespace c = true) n.
Proof.
  unfold trim, trim_end. split.
  - intros H. apply (f_equal (@rev N)) in H. rewrite rev_involutive in H.
    simpl in H. apply trim_start_nil in H.
    apply Forall_rev in H. rewrite rev_involutive in H.
    by apply trim_start_nil, trim_start_whitespace.
  - intros H. apply trim_start_nil in H. by rewrite H.
Qed.

(** C8. A "change username" event whose new name is empty after
    trimming (that is, all white space), or equal to the old name, is
    dropped: the log and the registry are unchanged and nothing is
    emitted. Otherwise the handler appends exactly one record, whose id
    is the generated one, whose text is the old name, then
    " changed their name to ", then the new name, whose sender is
    "System", whose timestamp is the current time and whose readers are
    the new name alone; it broadcasts that record, binds the socket to
    the new name, leaving every other binding as it was, and then
    broadcasts the registry's names. For a rename from "Ana" to "Bea" on
    the empty server the record reads "Ana changed their name to Bea". *)
Theorem change_username_guarded sid oldUsername newUsername uuid now s :
  (trim newUsername = [] <->
     Forall (fun c => is_whitespace c = true) newUsername)
  /\ (oldUsername = newUsername \/ trim newUsername = [] ->
        change_username sid oldUsername newUsername uuid now s = (s, []))
  /\ (oldUsername <> newUsername -> trim newUsername <> [] ->
        let res := change_username sid oldUsername newUsername uuid now s in
        let notice :=
          {| id := uuid;
             text :=
               oldUsername
                 ++ [32; 99; 104; 97; 110; 103; 101; 100; 32; 116; 104;
                     101; 105; 114; 32; 110; 97; 109; 101; 32; 116; 111;
                     32]%N
                 ++ newUsername;
             sender := [83; 121; 115; 116; 101; 109]%N;
             timestamp := now;
             readBy := [newUsername] |} in
        messages res.1 = messages s ++ [notice]
        /\ res.2 =
             [io_emit (chat_message notice);
              io_emit (online_users (map snd (users res.1)))]
        /\ users res.1 = map_set sid newUsername (users s)
        /\ map_get sid (users res.1) = Some newUsername
        /\ (forall sid', sid' <> sid ->
              map_get sid' (users res.1) = map_get sid' (users s)))
  /\ change_username (lit "c1") (lit "Ana") (lit "Bea") (lit "u1") 10
       initial
     = ({| users := [(lit "c1", lit "Bea")];
           messages :=
             [{| id := lit "u1";
                 text := lit "Ana changed their name to Bea";
                 sender := lit "System"; timestamp := 10;
                 readBy := [lit "Bea"] |}] |},
        [io_emit
           (chat_message
              {| id := lit "u1";
                 text := lit "Ana changed their name to Bea";
                 sender := lit "System"; timestamp := 10;
                 readBy := [lit "Bea"] |});
         io_emit (online_users [lit "Bea"])]).
Proof.
  split_and!.
  - apply trim_nil.
  - intros H. unfold change_username.
    destruct H as [H|H].
    + apply str_neqb_false in H. by rewrite H.
    + apply (str_neqb_false (trim newUsername) []) in H. rewrite H.
      by rewrite andb_false_r.
  - intros Hne Hblank. cbn zeta.
    unfold change_username.
    apply str_neqb_true in Hne, Hblank. rewrite Hne, Hblank.
    cbn [andb push_and_emit fst snd users messages app
         broadcastOnlineUsers getOnlineUsers].
    split_and!; try reflexivity.
    + apply map_get_set_eq.
    + intros sid' Hsid. apply map_get_set_ne. congruence.
  - vm_compute. reflexivity.
Qed.

End Rename.

(** ** The client's mirror *)

Section Mirror.
Import Client.
Implicit Types (st : State) (mirror : list Message) (msg : Message).

Lemma existsb_id msg mirror :
  existsb (fun m => str_eqb (id m) (id msg)) mirror = true <->
  id msg ∈ map id mirror.
Proof.
  rewrite existsb_exists, list_elem_of_fmap. split.
  - intros (m & Hin & Heq). apply str_eqb_true in Heq.
    exists m. split; [done | by apply list_elem_of_In].
  - intros (m & Heq & Hin). exists m.
    split; [by apply list_elem_of_In | by apply str_eqb_true].
Qed.

Lemma merge_present msg mirror :
  id msg ∈ map id mirror -> merge msg mirror = mirror.
Proof. intros H. unfold merge. apply existsb_id in H. by rewrite H. Qed.

Lemma merge_absent msg mirror :
  id msg ∉ map id mirror -> merge msg mirror = mirror ++ [msg].
Proof.
  intros H. unfold merge.
  destruct (existsb _ mirror) eqn:E; [|done].
  by apply existsb_id in E.
Qed.

Lemma merge_has_id msg mirror : id msg ∈ map id (merge msg mirror).
Proof.
  destruct (decide (id msg ∈ map id mirror)) as [H|H].
  - by rewrite merge_present.
  - rewrite merge_absent by done. rewrite map_app. apply elem_of_app.
    right. left.
Qed.

Lemma merge_unique msg mirror :
  unique_ids mirror -> unique_ids (merge msg mirror).
Proof.
  unfold unique_ids. intros Hnd.
  destruct (decide (id msg ∈ map id mirror)) as [H|H].
  - by rewrite merge_present.
  - rewrite merge_absent by done. rewrite map_app. simpl.
    apply NoDup_app. split_and!; [done| |apply NoDup_singleton].
    intros x Hx Hx'. by apply list_elem_of_singleton in Hx' as ->.
Qed.

Lemma replace_by_id_ids u mirror :
  map id (replace_by_id u mirror) = map id mirror.
Proof.
  unfold replace_by_id. induction mirror as [|m mirror IH]; simpl; [done|].
  rewrite IH. f_equal. destruct (str_eqb (id m) (id u)) eqn:E; [|done].
  by apply str_eqb_true in E.
Qed.

Lemma deliver_unique st d :
  unique_ids (messages st) -> unique_ids (messages (deliver st d)).
Proof.
  intros H. destruct d as [msg|u|]; simpl.
  - by apply merge_unique.
  - unfold unique_ids. by rewrite replace_by_id_ids.
  - unfold handleTrueLogout. destruct (socket st); [constructor | done].
Qed.

(** C9. Merging a "chat message" push whose id is already in the mirror
    changes nothing, so receiving the same push twice leaves the mirror
    as receiving it once does; and whatever sequence of pushes, updates
    and logouts reaches a client, starting from the empty mirror or from
    any mirror without repeated ids, no two entries of its mirror share
    an id. *)
Theorem mirror_merge_idempotent st msg ds :
  (id msg ∈ map id (messages st) -> (handleChatMessage msg st).1 = st)
  /\ (handleChatMessage msg (handleChatMessage msg st).1).1
       = (handleChatMessage msg st).1
  /\ unique_ids (messages (deliver_all initial ds))
  /\ (unique_ids (messages st) ->
        unique_ids (messages (deliver_all st ds))).
Proof.
  assert (Hinv : forall ds st, unique_ids (messages st) ->
                   unique_ids (messages (deliver_all st ds))).
  { clear. unfold deliver_all.
    induction ds as [|d ds IH]; intros st H; simpl; [done|].
    by apply IH, deliver_unique. }
  split_and!.
  - intros H. unfold handleChatMessage, with_messages. simpl.
    rewrite merge_present by done. by destruct st.
  - unfold handleChatMessage, with_messages. simpl.
    by rewrite (merge_present msg (merge msg _)) by apply merge_has_id.
  - apply Hinv. constructor.
  - apply Hinv.
Qed.

(** C10. A "message updated" push whose id is the id of no entry of the
    mirror leaves the client's state as it was: the record is not
    inserted, and in any case the handler never changes the number of
    entries. *)
Theorem message_updated_unknown_id st updatedMsg :
  id updatedMsg ∉ map id (messages st) ->
  handleMessageUpdated updatedMsg st = st
  /\ (updatedMsg ∉ messages (handleMessageUpdated updatedMsg st))
  /\ forall u st',
       length (messages (handleMessageUpdated u st'))
         = length (messages st').
Proof.
  intros Hid.
  assert (Heq : replace_by_id updatedMsg (messages st) = messages st).
  { unfold replace_by_id. induction (messages st) as [|m l IH]; [done|].
    simpl in *. apply not_elem_of_cons in Hid as [Hm Hl].
    rewrite IH by done. destruct (str_eqb (id m) (id updatedMsg)) eqn:E;
      [|done].
    apply str_eqb_true in E. congruence. }
  split_and!.
  - unfold handleMessageUpdated, with_messages. rewrite Heq. by destruct st.
  - unfold handleMessageUpdated, with_messages. simpl. rewrite Heq.
    intros Hin. apply Hid. apply list_elem_of_fmap. by exists updatedMsg.
  - intros u st'. unfold handleMessageUpdated, with_messages, replace_by_id.
    simpl. apply length_map.
Qed.

(** The theorem at a mirror holding "m1" and an update for "m2". *)
Lemma message_updated_unknown_id_witness :
  let m1 := {| id := lit "m1"; text := lit "hi"; sender := lit "alice";
               timestamp := 1000; readBy := [lit "alice"] |} in
  let m2 := {| id := lit "m2"; text := lit "yo"; sender := lit "bob";
               timestamp := 2000; readBy := [lit "bob"; lit "alice"] |} in
  let st := {| messages := [m1]; username := lit "alice";
               socket := Some true |} in
  (id m2 ∉ map id (messages st)) /\ handleMessageUpdated m2 st = st.
Proof.
  simpl.
  assert (H : lit "m2" ∉ [lit "m1"]).
  { intros H. apply list_elem_of_singleton in H. discriminate H. }
  split; [exact H|].
  exact (proj1 (message_updated_unknown_id
    {| messages :=
         [{| id := lit "m1"; text := lit "hi"; sender := lit "alice";
             timestamp := 1000; readBy := [lit "alice"] |}];
       username := lit "alice"; socket := Some true |}
    {| id := lit "m2"; text := lit "yo"; sender := lit "bob";
       timestamp := 2000; readBy := [lit "bob"; lit "alice"] |} H)).
Defined.

End Mirror.

(** ** The client's read-receipt triggers *)

Section Triggers.
Import Client.
Implicit Types (st : State) (msg : Message) (r : ReadReceipt).

Lemma emit_read_receipt_elem st r r' :
  r' ∈ emit_read_receipt st r -> r' = r /\ is_Some (socket st).
Proof.
  unfold emit_read_receipt. destruct (socket st) as [c|].
  - intros H. apply list_elem_of_singleton in H. eauto.
  - intros H. inversion H.
Qed.

Lemma handleChatMessage_emits msg st r :
  r ∈ (handleChatMessage msg st).2 ->
  r = {| messageId := id msg; reader := username st |} /\
  username st <> [] /\ sender msg <> username st /\ is_Some (socket st).
Proof.
  unfold handleChatMessage. simpl.
  destruct (truthy (username st)) eqn:Ht; simpl; [|intros H; inversion H].
  destruct (str_neqb (sender msg) (username st)) eqn:Hs; simpl;
    [|intros H; inversion H].
  case_bool_decide as Hsock; [|intros H; inversion H].
  intros H. apply list_elem_of_singleton in H.
  apply truthy_true in Ht. apply str_neqb_true in Hs. done.
Qed.

Lemma handleVisibilityChange_guarded visible st r :
  r ∈ handleVisibilityChange visible st -> guarded st r.
Proof.
  unfold handleVisibilityChange.
  destruct (visible && truthy (username st) && connected st);
    [|intros H; inversion H].
  rewrite list_elem_of_In, in_flat_map.
  intros (msg & Hmsg & Hr). apply list_elem_of_In in Hmsg, Hr.
  destruct (str_neqb (sender msg) (username st)) eqn:Hs; simpl in Hr;
    [|inversion Hr].
  destruct (includes (readBy msg) (username st)) eqn:Hi; simpl in Hr;
    [inversion Hr|].
  apply emit_read_receipt_elem in Hr as [-> _].
  apply str_neqb_true in Hs. apply includes_false in Hi.
  split; [done|]. by exists msg.
Qed.

Lemma observerCallback_guarded entries st r :
  r ∈ observerCallback entries st -> guarded st r.
Proof.
  unfold observerCallback. rewrite list_elem_of_In, in_flat_map.
  intros (e & _ & Hr). apply list_elem_of_In in Hr.
  destruct (isIntersecting e); [|inversion Hr].
  destruct (data_message_id e) as [mid|]; [|inversion Hr].
  destruct (truthy mid); [|inversion Hr].
  destruct (find _ (messages st)) as [m|] eqn:Hfind; [|inversion Hr].
  apply find_some in Hfind as [Hm Hid].
  apply list_elem_of_In in Hm. apply str_eqb_true in Hid.
  destruct (str_neqb (sender m) (username st)) eqn:Hs; simpl in Hr;
    [|inversion Hr].
  destruct (includes (readBy m) (username st)) eqn:Hi; simpl in Hr;
    [inversion Hr|].
  apply emit_read_receipt_elem in Hr as [-> _].
  apply str_neqb_true in Hs. apply includes_false in Hi.
  split; [done|]. by exists m.
Qed.

(** C3, as stated, fails for the merge trigger: "bob", with an empty
    mirror, receives a record from "alice" that already lists "bob" as a
    reader, and a receipt for it is emitted although the only entry with
    that id in the mirror has "bob" among its readers. *)
Lemma merge_trigger_not_guarded :
  ~ (forall st msg r,
       r ∈ (handleChatMessage msg st).2 ->
       guarded (handleChatMessage msg st).1 r).
Proof.
  intros H.
  destruct (H bob_fresh read_by_bob
              {| messageId := lit "m1"; reader := lit "bob" |})
    as (_ & m & Hm & _ & _ & Hnot).
  - vm_compute. left.
  - vm_compute in Hm. apply list_elem_of_singleton in Hm. subst m.
    apply Hnot. vm_compute. right. left.
Qed.

(** C3, amended. A receipt emitted by the visibility trigger or by the
    scroll-into-view trigger names the current user as reader and is
    for an entry of the mirror whose sender is not the current user and
    whose readers do not yet include the current user. A receipt emitted
    on the merge of a received message is for that message, whose id
    the mirror holds after the merge, with the current user as reader,
    and is emitted exactly when the user name is non-empty, the
    message's sender is not the current user and a socket exists; the
    readers of the message are not consulted. *)
Theorem read_receipt_emission_guards st :
  (forall msg r,
     r ∈ (handleChatMessage msg st).2 ->
     r = {| messageId := id msg; reader := username st |} /\
     username st <> [] /\ sender msg <> username st /\
     is_Some (socket st) /\
     id msg ∈ map id (messages (handleChatMessage msg st).1))
  /\ (forall msg,
        username st <> [] -> sender msg <> username st ->
        is_Some (socket st) ->
        (handleChatMessage msg st).2 =
          [{| messageId := id msg; reader := username st |}])
  /\ (forall visible r,
        r ∈ handleVisibilityChange visible st -> guarded st r)
  /\ (forall entries r, r ∈ observerCallback entries st -> guarded st r).
Proof.
  split_and!.
  - intros msg r Hr.
    apply handleChatMessage_emits in Hr as (-> & ? & ? & ?).
    split_and!; try done. simpl. apply merge_has_id.
  - intros msg Hn Hs Hsock. unfold handleChatMessage. simpl.
    apply truthy_true in Hn. apply str_neqb_true in Hs.
    rewrite Hn, Hs. simpl. by rewrite bool_decide_eq_true_2.
  - intros visible r. apply handleVisibilityChange_guarded.
  - intros entries r. apply observerCallback_guarded.
Qed.

End Triggers.

(** ** Worked examples *)

Section Examples.
Import Server.

Example trim_strips_both_ends : trim (lit "  Bob ") = lit "Bob".
Proof. reflexivity. Qed.

Example trim_of_blanks : trim (9 :: 160 :: 8232 :: lit " ")%N = [].
Proof. reflexivity. Qed.

Example trim_keeps_inner_space : trim (lit " a b ") = lit "a b".
Proof. reflexivity. Qed.

Example map_set_keeps_position :
  map_set (lit "a") (lit "X") [(lit "a", lit "1"); (lit "b", lit "2")]
    = [(lit "a", lit "X"); (lit "b", lit "2")].
Proof. reflexivity. Qed.

Example map_set_appends_new_key :
  map_set (lit "c") (lit "3") [(lit "a", lit "1"); (lit "b", lit "2")]
    = [(lit "a", lit "1"); (lit "b", lit "2"); (lit "c", lit "3")].
Proof. reflexivity. Qed.

Example slice_last_of_short_array : slice_last 50 [1; 2; 3] = [1; 2; 3].
Proof. reflexivity. Qed.

Example slice_last_of_long_array : slice_last 2 [1; 2; 3] = [2; 3].
Proof. reflexivity. Qed.

(** Records with equal timestamps keep their order in the sort. *)
Example sort_by_time_is_stable :
  map id
    (sort_by_time
       [mkMessage (lit "a") [] [] 20 []; mkMessage (lit "b") [] [] 10 [];
        mkMessage (lit "c") [] [] 20 []; mkMessage (lit "d") [] [] 10 []])
    = [lit "b"; lit "d"; lit "a"; lit "c"].
Proof. reflexivity. Qed.

(** The payload lists one name per connection: a name two connections
    share is there twice. *)
Example online_users_lists_each_connection :
  last (run initial (take 2 ana_scenario)).2
    = Some (io_emit (online_users [lit "Ana"; lit "Ana"])).
Proof. vm_compute. reflexivity. Qed.

(** A first receipt from "bob" is recorded and broadcast, a second one
    is dropped. *)
Example read_receipt_twice :
  let s := (chat_message_received (lit "hi") (lit "alice") (lit "m1") 1000
              initial).1 in
  let updated :=
    mkMessage (lit "m1") (lit "hi") (lit "alice") 1000
      [lit "alice"; lit "bob"] in
  read_receipt (lit "m1") (lit "bob") s
    = ({| users := []; messages := [updated] |},
       [io_emit (message_updated updated)])
  /\ read_receipt (lit "m1") (lit "bob")
       (read_receipt (lit "m1") (lit "bob") s).1
     = ({| users := []; messages := [updated] |}, [])
  /\ read_receipt (lit "m2") (lit "bob") s = (s, []).
Proof. vm_compute. repeat split. Qed.

(** A rename between two non-empty names through "user joined". *)
Example rename_through_join :
  messages
    (run initial
       [UserJoined (lit "c1") (lit "Ana") (lit "u1") 1000;
        UserJoined (lit "c1") (lit "Bea") (lit "u2") 2000;
        UserJoined (lit "c1") (lit "Bea") (lit "u3") 3000]).1
    = [systemMessage (lit "u1") (lit "Ana joined the chat") 1000
         [lit "Ana"];
       systemMessage (lit "u2") (lit "Ana changed their name to Bea") 2000
         [lit "Bea"]].
Proof. vm_compute. reflexivity. Qed.

(** A disconnect of a named connection: notice first, then the names. *)
Example disconnect_of_ana :
  (disconnect (lit "c1") (lit "u2") 2000
     {| users := [(lit "c1", lit "Ana"); (lit "c2", lit "Bea")];
        messages := [] |}).2
    = [io_emit
         (chat_message
            (systemMessage (lit "u2") (lit "Ana left the chat") 2000 []));
       io_emit (online_users [lit "Bea"])].
Proof. vm_compute. reflexivity. Qed.

(** The scroll trigger skips an entry without the attribute, an entry
    out of view, the user's own message and one already read. *)
Example observer_emits_for_unread_only :
  let mine := mkMessage (lit "m1") (lit "a") (lit "bob") 1 [lit "bob"] in
  let seen :=
    mkMessage (lit "m2") (lit "b") (lit "ana") 2 [lit "ana"; lit "bob"] in
  let unread := mkMessage (lit "m3") (lit "c") (lit "ana") 3 [lit "ana"] in
  Client.observerCallback
    [Client.mkEntry true None; Client.mkEntry false (Some (lit "m3"));
     Client.mkEntry true (Some (lit "m1"));
     Client.mkEntry true (Some (lit "m2"));
     Client.mkEntry true (Some (lit "m3"));
     Client.mkEntry true (Some (lit "m9"))]
    {| Client.messages := [mine; seen; unread];
       Client.username := lit "bob"; Client.socket := Some true |}
    = [{| messageId := lit "m3"; reader := lit "bob" |}].
Proof. vm_compute. reflexivity. Qed.

End Examples.

(** ** More on the server's log *)

Section LogFacts.
Import Server.
Implicit Types (s : State) (e : event) (es : list event).

Lemma broadcast_messages_app out1 out2 :
  broadcast_messages (out1 ++ out2)
    = broadcast_messages out1 ++ broadcast_messages out2.
Proof. unfold broadcast_messages. apply omap_app. Qed.

Lemma broadcast_messages_notice notice :
  broadcast_messages (map (fun m => io_emit (chat_message m)) notice)
    = notice.
Proof.
  induction notice as [|m l IH]; [done|].
  unfold broadcast_messages. cbn [map omap list_omap]. f_equal. exact IH.
Qed.

Lemma broadcast_messages_pushes sid l :
  broadcast_messages (map (fun m => socket_emit sid (chat_message m)) l)
    = [].
Proof. induction l as [|m l IH]; [done|]. exact IH. Qed.

(** What a handler other than the read-receipt one appends is what it
    broadcasts as "chat message". *)
Lemma step_appends_broadcasts s e :
  is_read_receipt e = false ->
  messages (step s e).1 = messages s ++ broadcast_messages (step s e).2.
Proof.
  destruct e as [sid n u t|sid o n u t|sid tx sd u t|sid m r|sid u t];
    simpl; intros Hr; try done.
  - destruct (user_joined_shape sid n u t s) as (nt & _ & ->). simpl.
    rewrite !broadcast_messages_app, broadcast_messages_notice,
      broadcast_messages_pushes. simpl. by rewrite app_nil_r.
  - unfold change_username, push_and_emit.
    destruct (str_neqb o n && str_neqb (trim n) []); simpl;
      [done | by rewrite app_nil_r].
  - unfold disconnect, push_and_emit.
    destruct (map_get sid (users s)) as [n|]; [destruct (truthy n)|];
      simpl; by rewrite ?app_nil_r.
Qed.

Lemma read_receipt_same_length mid r s :
  length (messages (read_receipt mid r s).1) = length (messages s)
  /\ broadcast_messages (read_receipt mid r s).2 = [].
Proof.
  unfold read_receipt.
  destruct (list_find _ _) as [[i msg]|]; [destruct (negb _)|]; simpl;
    try done.
  by rewrite length_insert.
Qed.

Lemma step_broadcast_count s e :
  length (messages (step s e).1)
    = (length (messages s) + length (broadcast_messages (step s e).2))%nat
  /\ (length (broadcast_messages (step s e).2) <= 1)%nat.
Proof.
  destruct (is_read_receipt e) eqn:E.
  - destruct e as [| | |sid mid r|]; try done. simpl.
    destruct (read_receipt_same_length mid r s) as [-> ->].
    simpl. lia.
  - split; [by rewrite step_appends_broadcasts, length_app|].
    destruct e as [sid n u t|sid o n u t|sid tx sd u t|sid m r|sid u t];
      simpl; try done.
    + destruct (user_joined_shape sid n u t s) as (nt & Hnt & ->). simpl.
      rewrite !broadcast_messages_app, broadcast_messages_notice,
        broadcast_messages_pushes. simpl. rewrite app_nil_r. done.
    + unfold change_username, push_and_emit.
      destruct (str_neqb o n && str_neqb (trim n) []); simpl; lia.
    + unfold disconnect, push_and_emit.
      destruct (map_get sid (users s)) as [n|]; [destruct (truthy n)|];
        simpl; lia.
Qed.

(** X1. Along every sequence of events the log grows by exactly the
    number of "chat message" broadcasts, which is at most one per event:
    a record is appended exactly when it is broadcast, and a sequence
    without read receipts appends exactly the broadcast records, in
    order. *)
Theorem log_grows_with_broadcasts s es :
  length (messages (run s es).1)
    = (length (messages s) + length (broadcast_messages (run s es).2))%nat
  /\ (length (broadcast_messages (run s es).2) <= length es)%nat
  /\ (forallb (fun e => negb (is_read_receipt e)) es = true ->
        messages (run s es).1
          = messages s ++ broadcast_messages (run s es).2).
Proof.
  split_and!.
  - revert s. induction es as [|e es IH]; intros s.
    + simpl. lia.
    + rewrite run_cons. simpl. rewrite IH, broadcast_messages_app, length_app.
      destruct (step_broadcast_count s e) as [-> _]. lia.
  - revert s. induction es as [|e es IH]; intros s.
    + simpl. lia.
    + rewrite run_cons. simpl. rewrite broadcast_messages_app, length_app.
      destruct (step_broadcast_count s e) as [_ H]. specialize (IH (step s e).1).
      lia.
  - revert s. induction es as [|e es IH]; intros s; simpl forallb.
    + intros _. simpl. by rewrite app_nil_r.
    + rewrite andb_true_iff, negb_true_iff. intros [He Hes].
      rewrite run_cons. simpl. rewrite IH by done.
      rewrite step_appends_broadcasts by done.
      by rewrite broadcast_messages_app, app_assoc.
Qed.

Lemma step_readers_distinct s e :
  readers_distinct (messages s) -> readers_distinct (messages (step s e).1).
Proof.
  unfold readers_distinct. intros H.
  assert (Hpush : forall m, NoDup (readBy m) ->
            Forall (fun m => NoDup (readBy m)) (messages s ++ [m])).
  { intros m Hm. apply Forall_app. split; [done|]. by constructor. }
  destruct e as [sid n u t|sid o n u t|sid tx sd u t|sid m r|sid u t];
    simpl.
  - unfold user_joined, push_and_emit.
    destruct (map_get sid (users s)) as [p|];
      [destruct (truthy p); [destruct (str_neqb p n)|]|];
      simpl; try done; apply Hpush; simpl; apply NoDup_singleton.
  - unfold change_username, push_and_emit.
    destruct (str_neqb o n && str_neqb (trim n) []); simpl; [|done].
    apply Hpush. simpl. apply NoDup_singleton.
  - apply Hpush. simpl. apply NoDup_singleton.
  - unfold read_receipt.
    destruct (list_find _ _) as [[i msg]|] eqn:E; [|done].
    destruct (includes (readBy msg) r) eqn:Hi; simpl; [done|].
    apply list_find_Some in E as (Hlook & _ & _).
    apply Forall_insert; [done|]. simpl.
    apply includes_false in Hi.
    apply NoDup_app. split_and!.
    + by eapply (Forall_lookup_1 _ _ _ _ H Hlook).
    + intros x Hx Hx'. by apply list_elem_of_singleton in Hx' as ->.
    + apply NoDup_singleton.
  - unfold disconnect, push_and_emit.
    destruct (map_get sid (users s)) as [n|]; [destruct (truthy n)|];
      simpl; try done.
    apply Hpush. simpl. constructor.
Qed.

Lemma run_readers_distinct es s :
  readers_distinct (messages s) ->
  readers_distinct (messages (run s es).1).
Proof.
  revert s. induction es as [|e es IH]; intros s H; [done|].
  rewrite run_cons. simpl. by apply IH, step_readers_distinct.
Qed.

(** X2. No record of the log ever lists a reader twice: when this holds
    of the log, it holds after every sequence of events, and it holds of
    every log the server builds from the empty one. *)
Theorem readers_stay_distinct s es :
  readers_distinct (messages s) ->
  readers_distinct (messages (run s es).1)
  /\ readers_distinct (messages (run initial es).1).
Proof.
  intros H. split; [by apply run_readers_distinct|].
  apply run_readers_distinct. constructor.
Qed.

(** The theorem at a log with one record and a repeated receipt. *)
Lemma readers_stay_distinct_witness :
  let s := {| users := [];
              messages := [mkMessage (lit "m1") (lit "hi") (lit "ana") 10
                             [lit "ana"]] |} in
  let es := [ReadReceipt (lit "c1") (lit "m1") (lit "bob");
             ReadReceipt (lit "c1") (lit "m1") (lit "bob")] in
  readers_distinct (messages s) /\
  readers_distinct (messages (run s es).1).
Proof.
  simpl.
  assert (H : readers_distinct
                [mkMessage (lit "m1") (lit "hi") (lit "ana") 10
                   [lit "ana"]]).
  { constructor; [apply NoDup_singleton | constructor]. }
  split; [exact H|].
  exact (proj1 (readers_stay_distinct
    {| users := [];
       messages := [mkMessage (lit "m1") (lit "hi") (lit "ana") 10
                      [lit "ana"]] |}
    [ReadReceipt (lit "c1") (lit "m1") (lit "bob");
     ReadReceipt (lit "c1") (lit "m1") (lit "bob")] H)).
Defined.

End LogFacts.

(** ** Ids, broadcasts and round trips on the server *)

Section ServerFacts.
Import Server.
Implicit Types (s : State) (e : event) (es : list event).

(** The ids of the log after a handler: those before, followed at most
    by the id generated for the event. *)
Lemma step_ids s e :
  map id (messages (step s e).1) = map id (messages s)
  \/ (exists uuid, event_uuid e = Some uuid /\
        messages (step s e).1
          = messages s ++ broadcast_messages (step s e).2 /\
        map id (messages (step s e).1) = map id (messages s) ++ [uuid]).
Proof.
  destruct e as [sid n u t|sid o n u t|sid tx sd u t|sid m r|sid u t];
    simpl.
  - unfold user_joined, push_and_emit.
    destruct (map_get sid (users s)) as [p|];
      [destruct (truthy p); [destruct (str_neqb p n)|]|];
      simpl; try (by left);
      right; exists u; rewrite !broadcast_messages_app,
        broadcast_messages_pushes, map_app; simpl; done.
  - unfold change_username, push_and_emit.
    destruct (str_neqb o n && str_neqb (trim n) []); simpl; [|by left].
    right. exists u. by rewrite map_app.
  - right. exists u. by rewrite map_app.
  - left. unfold read_receipt.
    destruct (list_find _ _) as [[i msg]|] eqn:E; [|done].
    destruct (negb _); simpl; [|done].
    apply list_find_Some in E as (Hlook & _ & _).
    rewrite list_fmap_insert. simpl. by apply list_insert_id, list_lookup_fmap_Some_2.
  - unfold disconnect, push_and_emit.
    destruct (map_get sid (users s)) as [n|]; [destruct (truthy n)|];
      simpl; try (by left).
    right. exists u. by rewrite map_app.
Qed.

Lemma uuids_cons e es :
  uuids (e :: es) = from_option (fun u => [u]) [] (event_uuid e) ++ uuids es.
Proof. unfold uuids. simpl. by destruct (event_uuid e). Qed.

Lemma step_ids_fresh s e es :
  NoDup (map id (messages s) ++ uuids (e :: es)) ->
  NoDup (map id (messages (step s e).1) ++ uuids es).
Proof.
  rewrite uuids_cons. intros Hnd.
  destruct (step_ids s e) as [->|(u & Hu & _ & ->)].
  - destruct (event_uuid e) as [u|]; simpl in Hnd; [|done].
    apply NoDup_app in Hnd as (H1 & H2 & H3).
    apply NoDup_cons in H3 as [_ H3].
    apply NoDup_app. split_and!; [done| |done].
    intros x Hx Hx'. apply (H2 x Hx). by right.
  - rewrite Hu in Hnd. simpl in Hnd. by rewrite <- app_assoc.
Qed.

(** X3. When the ids of the log and the ids generated for the events are
    pairwise distinct, the ids of the log stay pairwise distinct along the
    events. *)
Theorem log_ids_stay_unique s es :
  NoDup (map id (messages s) ++ uuids es) ->
  unique_ids (messages (run s es).1).
Proof.
  unfold unique_ids. revert s.
  induction es as [|e es IH]; intros s Hnd.
  - simpl in *. by rewrite app_nil_r in Hnd.
  - rewrite run_cons. simpl. by apply IH, step_ids_fresh.
Qed.

(** The theorem at the empty log and two posts with different ids. *)
Lemma log_ids_stay_unique_witness :
  let es := [ChatMessage (lit "c1") (lit "hi") (lit "ana") (lit "m1") 10;
             ChatMessage (lit "c1") (lit "yo") (lit "ana") (lit "m2") 20] in
  NoDup (map id (messages initial) ++ uuids es) /\
  unique_ids (messages (run initial es).1).
Proof.
  simpl.
  assert (H : NoDup (map id (messages initial)
                ++ uuids [ChatMessage (lit "c1") (lit "hi") (lit "ana")
                            (lit "m1") 10;
                          ChatMessage (lit "c1") (lit "yo") (lit "ana")
                            (lit "m2") 20])).
  { compute_done. }
  split; [exact H|].
  exact (log_ids_stay_unique initial
    [ChatMessage (lit "c1") (lit "hi") (lit "ana") (lit "m1") 10;
     ChatMessage (lit "c1") (lit "yo") (lit "ana") (lit "m2") 20] H).
Defined.

Lemma step_sent_records s e m :
  (io_emit (chat_message m) ∈ (step s e).2 -> m ∈ messages (step s e).1)
  /\ (io_emit (message_updated m) ∈ (step s e).2 ->
        m ∈ messages (step s e).1)
  /\ (forall sid, socket_emit sid (chat_message m) ∈ (step s e).2 ->
        m ∈ messages (step s e).1).
Proof.
  destruct e as [sid n u t|sid o n u t|sid tx sd u t|sid mid r|sid u t];
    simpl.
  - destruct (user_joined_shape sid n u t s) as (nt & _ & ->). simpl.
    set (s2 := {| users := map_set sid n (users s);
                  messages := messages s ++ nt |}).
    assert (Hrep : forall x, x ∈ recentMessages s2 -> x ∈ messages s ++ nt).
    { intros x Hx. unfold recentMessages, slice_last in Hx.
      apply subseteq_drop in Hx.
      by rewrite sort_by_time_perm in Hx. }
    split_and!.
    + intros H. rewrite !elem_of_app, !list_elem_of_fmap in H.
      destruct H as [(x & [= ->] & Hx)|[(x & [=] & _)|H]].
      * apply elem_of_app. by right.
      * apply list_elem_of_singleton in H. discriminate H.
    + intros H. rewrite !elem_of_app, !list_elem_of_fmap in H.
      destruct H as [(x & [=] & _)|[(x & [=] & _)|H]].
      apply list_elem_of_singleton in H. discriminate H.
    + intros sid' H. rewrite !elem_of_app, !list_elem_of_fmap in H.
      destruct H as [(x & [=] & _)|[(x & [= _ ->] & Hx)|H]].
      * by apply Hrep.
      * apply list_elem_of_singleton in H. discriminate H.
  - unfold change_username, push_and_emit.
    destruct (str_neqb o n && str_neqb (trim n) []); simpl.
    + split_and!; [|intros H|intros sid' H];
        [|repeat (apply elem_of_cons in H as [[=]|H]); inversion H ..].
      intros H. apply elem_of_cons in H as [[= ->]|H].
      * apply elem_of_app. right. left.
      * apply list_elem_of_singleton in H. discriminate H.
    + split_and!; [intros H|intros H|intros sid' H]; inversion H.
  - split_and!; [intros H|intros H|intros sid' H];
      apply list_elem_of_singleton in H; try discriminate H.
    injection H as ->. apply elem_of_app. right. left.
  - unfold read_receipt.
    destruct (list_find _ _) as [[i msg]|] eqn:E;
      [destruct (negb _)|]; simpl;
      try (split_and!; [intros H|intros H|intros sid' H]; inversion H; fail).
    apply list_find_Some in E as (Hlook & _ & _).
    split_and!; [intros H|intros H|intros sid' H];
      apply list_elem_of_singleton in H; try discriminate H.
    injection H as ->. apply list_elem_of_lookup. exists i.
    apply list_lookup_insert_eq. by eapply lookup_lt_Some.
  - unfold disconnect, push_and_emit.
    destruct (map_get sid (users s)) as [n|]; [destruct (truthy n)|];
      simpl;
      try (split_and!; [intros H|intros H|intros sid' H]; inversion H; fail).
    split_and!; [|intros H|intros sid' H];
      [|repeat (apply elem_of_cons in H as [[=]|H]); inversion H ..].
    intros H. apply elem_of_cons in H as [[= ->]|H].
    + apply elem_of_app. right. left.
    + apply list_elem_of_singleton in H. discriminate H.
Qed.

Lemma run_log_only_grows es s :
  log_only_grows (messages s) (messages (run s es).1).
Proof.
  revert s. induction es as [|e es IH]; intros s.
  - apply log_only_grows_refl.
  - rewrite run_cons. simpl.
    eapply log_only_grows_trans; [apply step_grows | apply IH].
Qed.

(** X7. Whatever record the server sends while it handles a sequence of
    events, as a "chat message" broadcast, as a "message updated"
    broadcast or as a push to one socket, is at that moment a record of
    the log: it has the id, text, sender and timestamp of a record of the
    final log, and readers among that record's. *)
Theorem sent_records_are_in_the_log s es m :
  (io_emit (chat_message m) ∈ (run s es).2
   \/ io_emit (message_updated m) ∈ (run s es).2
   \/ exists sid, socket_emit sid (chat_message m) ∈ (run s es).2) ->
  exists m', m' ∈ messages (run s es).1 /\ same_record_more_readers m m'.
Proof.
  revert s. induction es as [|e es IH]; intros s.
  - simpl. intros [H|[H|[sid H]]]; inversion H.
  - rewrite run_cons. cbn [fst snd]. intros H.
    assert (Hcase : m ∈ messages (step s e).1 \/
      (io_emit (chat_message m) ∈ (run (step s e).1 es).2
       \/ io_emit (message_updated m) ∈ (run (step s e).1 es).2
       \/ exists sid,
            socket_emit sid (chat_message m) ∈ (run (step s e).1 es).2)).
    { destruct (step_sent_records s e m) as (H1 & H2 & H3).
      destruct H as [H|[H|[sid H]]]; apply elem_of_app in H as [H|H];
        eauto 6. }
    destruct Hcase as [Hin|Hlater]; [|by apply IH].
    apply list_elem_of_lookup in Hin as [i Hi].
    destruct (run_log_only_grows es (step s e).1 i m Hi)
      as (m' & Hm' & Hsame).
    exists m'. split; [|done]. apply list_elem_of_lookup. by exists i.
Qed.

(** The theorem at the empty server: a post that is read afterwards. *)
Lemma sent_records_are_in_the_log_witness :
  let es := [ChatMessage (lit "c1") (lit "hi") (lit "ana") (lit "m1") 10;
             ReadReceipt (lit "c2") (lit "m1") (lit "bob")] in
  let m := mkMessage (lit "m1") (lit "hi") (lit "ana") 10 [lit "ana"] in
  io_emit (chat_message m) ∈ (run initial es).2 /\
  exists m', m' ∈ messages (run initial es).1 /\
             same_record_more_readers m m'.
Proof.
  cbn zeta.
  assert (H : io_emit
                (chat_message
                   (mkMessage (lit "m1") (lit "hi") (lit "ana") 10
                      [lit "ana"]))
              ∈ (run initial
                   [ChatMessage (lit "c1") (lit "hi") (lit "ana")
                      (lit "m1") 10;
                    ReadReceipt (lit "c2") (lit "m1") (lit "bob")]).2).
  { vm_compute. left. }
  split; [exact H|].
  exact (sent_records_are_in_the_log initial
    [ChatMessage (lit "c1") (lit "hi") (lit "ana") (lit "m1") 10;
     ReadReceipt (lit "c2") (lit "m1") (lit "bob")]
    (mkMessage (lit "m1") (lit "hi") (lit "ana") 10 [lit "ana"])
    (or_introl H)).
Defined.

Lemma map_delete_set_fresh {V} k (v : V) (m : Map V) :
  map_get k m = None -> map_delete k (map_set k v m) = m.
Proof.
  induction m as [|[k' v'] m IH]; simpl.
  - by rewrite str_eqb_refl.
  - destruct (str_eqb k k') eqn:E; [done|]. intros H. simpl.
    by rewrite E, IH.
Qed.

(** X6. A socket that is not in the registry joins under a non-empty name
    and then disconnects: the registry is as before the join, and the log
    has gained the "joined" notice, read by the name, followed by the
    "left" notice, read by nobody. *)
Theorem join_then_disconnect sid name uuid1 now1 uuid2 now2 s :
  map_get sid (users s) = None -> name <> [] ->
  let s' := (run s [UserJoined sid name uuid1 now1;
                    Disconnect sid uuid2 now2]).1 in
  users s' = users s
  /\ messages s' =
       messages s
         ++ [systemMessage uuid1 (name ++ lit " joined the chat") now1 [name];
             systemMessage uuid2 (name ++ lit " left the chat") now2 []].
Proof.
  intros Hget Hne. simpl.
  unfold user_joined, push_and_emit. rewrite Hget. simpl.
  unfold disconnect, push_and_emit. simpl.
  rewrite map_get_set_eq. apply truthy_true in Hne. rewrite Hne. simpl.
  rewrite map_delete_set_fresh by done. by rewrite <- app_assoc.
Qed.

(** The theorem at the empty server and a socket joining as "Ana". *)
Lemma join_then_disconnect_witness :
  map_get (lit "c1") (users initial) = None /\ lit "Ana" <> [] /\
  users (run initial [UserJoined (lit "c1") (lit "Ana") (lit "u1") 10;
                      Disconnect (lit "c1") (lit "u2") 20]).1 = [].
Proof.
  assert (H1 : map_get (lit "c1") (users initial) = None) by reflexivity.
  assert (H2 : lit "Ana" <> []) by discriminate.
  split_and!; [exact H1 | exact H2 |].
  exact (proj1 (join_then_disconnect (lit "c1") (lit "Ana") (lit "u1") 10
                  (lit "u2") 20 initial H1 H2)).
Defined.

Lemma trim_nonempty n : trim n <> [] -> n <> [].
Proof. intros H ->. by apply H. Qed.

(** X8. A "change username" to a non-blank, different name followed by
    a "user joined" under the new name on the same socket, which is what
    the client sends on a rename, announces the rename once: the log
    gains the one "changed their name" notice, and the socket is bound
    to the new name. *)
Theorem rename_then_join sid old new uuid1 now1 uuid2 now2 s :
  old <> new -> trim new <> [] ->
  let s' := (run s [ChangeUsername sid old new uuid1 now1;
                    UserJoined sid new uuid2 now2]).1 in
  messages s' =
    messages s
      ++ [systemMessage uuid1 (old ++ lit " changed their name to " ++ new)
            now1 [new]]
  /\ map_get sid (users s') = Some new
  /\ users s' = map_set sid new (users s).
Proof.
  intros Hne Hblank. simpl.
  pose proof (trim_nonempty _ Hblank) as Hnew.
  unfold change_username, push_and_emit.
  apply str_neqb_true in Hne, Hblank. rewrite Hne, Hblank. simpl.
  unfold user_joined, push_and_emit. simpl.
  rewrite map_get_set_eq. apply truthy_true in Hnew. rewrite Hnew.
  assert (str_neqb new new = false) as -> by by apply str_neqb_false.
  simpl. split_and!; [done | apply map_get_set_eq |].
  generalize (users s). intros m.
  induction m as [|[k v] m IH]; simpl.
  - by rewrite str_eqb_refl.
  - destruct (str_eqb sid k) eqn:E; simpl.
    + by rewrite str_eqb_refl.
    + by rewrite E, IH.
Qed.

(** The theorem at the empty server, for a rename from "Ana" to "Bea". *)
Lemma rename_then_join_witness :
  lit "Ana" <> lit "Bea" /\ trim (lit "Bea") <> [] /\
  map_get (lit "c1")
    (users (run initial
              [ChangeUsername (lit "c1") (lit "Ana") (lit "Bea") (lit "u1") 10;
               UserJoined (lit "c1") (lit "Bea") (lit "u2") 20]).1)
    = Some (lit "Bea").
Proof.
  assert (H1 : lit "Ana" <> lit "Bea") by discriminate.
  assert (H2 : trim (lit "Bea") <> []) by discriminate.
  split_and!; [exact H1 | exact H2 |].
  exact (proj1 (proj2 (rename_then_join (lit "c1") (lit "Ana") (lit "Bea")
                         (lit "u1") 10 (lit "u2") 20 initial H1 H2))).
Defined.

End ServerFacts.

(** ** The sort by timestamp *)

Section SortFacts.
Import Server.
Implicit Types (s : State) (l : list Message).

Lemma insert_by_time_same_time t m l :
  List.filter (fun x => timestamp x =? t) (insert_by_time m l)
    = List.filter (fun x => timestamp x =? t) (m :: l).
Proof.
  induction l as [|x l IH]; [done|].
  cbn [insert_by_time].
  destruct (timestamp m <=? timestamp x) eqn:E; [done|].
  apply Z.leb_gt in E. cbn [List.filter] in *. rewrite IH.
  destruct (timestamp m =? t) eqn:Em; [|done].
  apply Z.eqb_eq in Em.
  assert ((timestamp x =? t) = false) as -> by (apply Z.eqb_neq; lia).
  done.
Qed.

Lemma sort_by_time_identity l :
  in_time_order l -> sort_by_time l = l.
Proof.
  unfold in_time_order. induction l as [|m l IH]; [done|].
  intros Hs. apply StronglySorted_inv in Hs as [Hl Hm].
  simpl. rewrite IH by done. destruct l as [|x l]; [done|].
  simpl. apply Forall_cons in Hm as [Hmx _]. unfold by_time in Hmx.
  apply Z.leb_le in Hmx. by rewrite Hmx.
Qed.

(** X4. The sort by timestamp of the history replay and of the message
    list is stable: the records with any one timestamp come out in the
    order they have in the input; and the output is the input rearranged
    in ascending timestamp order. *)
Theorem sort_by_time_stable t l :
  List.filter (fun x => timestamp x =? t) (sort_by_time l)
    = List.filter (fun x => timestamp x =? t) l
  /\ sort_by_time l ≡ₚ l
  /\ StronglySorted by_time (sort_by_time l).
Proof.
  split_and!; [|apply sort_by_time_perm | apply sort_by_time_sorted].
  induction l as [|m l IH]; [done|].
  simpl sort_by_time. rewrite insert_by_time_same_time.
  cbn [List.filter]. by rewrite IH.
Qed.

(** X5. When the log is in time order and the clock has not gone back
    behind it, the records replayed on a join are the last 50 records of
    the log as the join leaves it, in log order (all of them when there
    are fewer). *)
Theorem replay_of_ordered_log sid username uuid now s :
  in_time_order (messages s) ->
  Forall (fun m => timestamp m <= now) (messages s) ->
  let res := user_joined sid username uuid now s in
  pushes_to sid res.2 = slice_last 50 (messages res.1)
  /\ in_time_order (messages res.1).
Proof.
  intros Hs Hnow. simpl.
  assert (Hpush : forall body readers,
    in_time_order (messages s ++ [systemMessage uuid body now readers])).
  { intros body readers. unfold in_time_order.
    apply StronglySorted_app_2; [|done|by repeat constructor].
    intros a b Ha Hb. apply list_elem_of_singleton in Hb as ->.
    unfold by_time. simpl. by eapply (proj1 (Forall_forall _ _) Hnow). }
  destruct (user_joined_shape sid username uuid now s) as (nt & _ & Heq).
  simpl in Heq.
  assert (Hord : in_time_order (messages (user_joined sid username uuid now s).1)).
  { unfold user_joined, push_and_emit.
    destruct (map_get sid (users s)) as [p|];
      [destruct (truthy p); [destruct (str_neqb p username)|]|];
      simpl; try done; apply Hpush. }
  split; [|done].
  rewrite Heq in *. simpl in *. rewrite pushes_to_replay.
  unfold recentMessages. simpl. by rewrite sort_by_time_identity.
Qed.

(** The theorem at a log of two records in time order and a later join. *)
Lemma replay_of_ordered_log_witness :
  let log := [mkMessage (lit "m1") (lit "hi") (lit "ana") 10 [lit "ana"];
              mkMessage (lit "m2") (lit "yo") (lit "bea") 20 [lit "bea"]] in
  let s := {| users := []; messages := log |} in
  in_time_order (messages s) /\
  Forall (fun m => timestamp m <= 30) (messages s) /\
  pushes_to (lit "c1")
    (user_joined (lit "c1") (lit "Cy") (lit "u1") 30 s).2
    = log ++ [systemMessage (lit "u1") (lit "Cy joined the chat") 30
                [lit "Cy"]].
Proof.
  simpl.
  assert (H1 : in_time_order
    [mkMessage (lit "m1") (lit "hi") (lit "ana") 10 [lit "ana"];
     mkMessage (lit "m2") (lit "yo") (lit "bea") 20 [lit "bea"]]).
  { unfold in_time_order, by_time. repeat constructor; simpl; lia. }
  assert (H2 : Forall (fun m => timestamp m <= 30)
    [mkMessage (lit "m1") (lit "hi") (lit "ana") 10 [lit "ana"];
     mkMessage (lit "m2") (lit "yo") (lit "bea") 20 [lit "bea"]]).
  { repeat constructor; simpl; lia. }
  split_and!; [exact H1 | exact H2 |].
  exact (proj1 (replay_of_ordered_log (lit "c1") (lit "Cy") (lit "u1") 30
    {| users := [];
       messages :=
         [mkMessage (lit "m1") (lit "hi") (lit "ana") 10 [lit "ana"];
          mkMessage (lit "m2") (lit "yo") (lit "bea") 20 [lit "bea"]] |}
    H1 H2)).
Defined.

End SortFacts.

(** ** The mirror against the server's log *)

Section Sync.
Import Server.
Implicit Types (s : State) (e : event) (es : list event).
Implicit Types (st : Client.State) (mirror : list Message).

Lemma replace_by_id_elem u mirror m :
  m ∈ Client.replace_by_id u mirror ->
  m = u \/ (m ∈ mirror /\ id m <> id u).
Proof.
  unfold Client.replace_by_id. rewrite list_elem_of_fmap.
  intros (x & -> & Hx). destruct (str_eqb (id x) (id u)) eqn:E.
  - by left.
  - right. by apply str_eqb_false in E.
Qed.

Lemma replace_by_id_lookup_other u mirror i m :
  mirror !! i = Some m -> id m <> id u ->
  Client.replace_by_id u mirror !! i = Some m.
Proof.
  intros Hi Hne. unfold Client.replace_by_id.
  rewrite list_lookup_fmap, Hi. simpl.
  apply str_eqb_false in Hne. by rewrite Hne.
Qed.

Lemma replace_by_id_known u mirror :
  id u ∈ map id mirror -> u ∈ Client.replace_by_id u mirror.
Proof.
  rewrite list_elem_of_fmap. intros (m & Hid & Hm).
  unfold Client.replace_by_id. apply list_elem_of_fmap. exists m.
  split; [|done]. symmetry in Hid. apply str_eqb_true in Hid.
  by rewrite Hid.
Qed.

(** X9. A "message updated" push keeps the ids of the mirror, in order;
    afterwards every entry with the id of the update is the update itself
    (so when the id is known the update is in the mirror), every entry
    with another id is untouched, and the user name and the socket are as
    before. *)
Theorem message_updated_replaces_by_id st updatedMsg :
  let st' := Client.handleMessageUpdated updatedMsg st in
  map id (Client.messages st') = map id (Client.messages st)
  /\ (forall m, m ∈ Client.messages st' -> id m = id updatedMsg ->
        m = updatedMsg)
  /\ (forall i m, Client.messages st !! i = Some m ->
        id m <> id updatedMsg -> Client.messages st' !! i = Some m)
  /\ (id updatedMsg ∈ map id (Client.messages st) ->
        updatedMsg ∈ Client.messages st')
  /\ Client.username st' = Client.username st
  /\ Client.socket st' = Client.socket st.
Proof.
  simpl. split_and!; try done.
  - apply replace_by_id_ids.
  - intros m Hm Hid. apply replace_by_id_elem in Hm as [->|[_ Hne]]; done.
  - apply replace_by_id_lookup_other.
  - apply replace_by_id_known.
Qed.

Lemma replace_by_id_unique u mirror i m :
  unique_ids mirror -> mirror !! i = Some m -> id u = id m ->
  Client.replace_by_id u mirror = <[i := u]> mirror.
Proof.
  unfold unique_ids. intros Hnd Hi Hid.
  apply list_eq. intros j. unfold Client.replace_by_id.
  rewrite list_lookup_fmap.
  destruct (decide (j = i)) as [->|Hne].
  - rewrite Hi. simpl. rewrite Hid, str_eqb_refl.
    symmetry. apply list_lookup_insert_eq. by eapply lookup_lt_Some.
  - rewrite list_lookup_insert_ne by done.
    destruct (mirror !! j) as [x|] eqn:Hj; [|done]. simpl.
    destruct (str_eqb (id x) (id u)) eqn:E; [|done].
    apply str_eqb_true in E. exfalso. apply Hne.
    eapply (NoDup_lookup _ _ _ (id x) Hnd).
    + by rewrite list_lookup_fmap, Hj.
    + rewrite list_lookup_fmap, Hi. simpl. congruence.
Qed.

Lemma deliver_all_app st ds1 ds2 :
  Client.deliver_all st (ds1 ++ ds2)
    = Client.deliver_all (Client.deliver_all st ds1) ds2.
Proof. unfold Client.deliver_all. apply foldl_app. Qed.

Lemma deliver_known_pushes l st :
  (forall m, m ∈ l -> id m ∈ map id (Client.messages st)) ->
  Client.messages (Client.deliver_all st (map Client.PushMessage l))
    = Client.messages st.
Proof.
  revert st. induction l as [|m l IH]; intros st H; [done|].
  simpl. unfold Client.deliver_all in *. simpl.
  assert (Hm : Client.merge m (Client.messages st) = Client.messages st).
  { apply merge_present, H. left. }
  rewrite IH; simpl; rewrite Hm; [done|].
  intros x Hx. apply H. by right.
Qed.

Lemma deliveries_for_app sid out1 out2 :
  deliveries_for sid (out1 ++ out2)
    = deliveries_for sid out1 ++ deliveries_for sid out2.
Proof. unfold deliveries_for. apply omap_app. Qed.

Lemma deliveries_for_notice sid l :
  deliveries_for sid (map (fun m => io_emit (chat_message m)) l)
    = map Client.PushMessage l.
Proof.
  induction l as [|m l IH]; [done|].
  unfold deliveries_for. cbn [map omap list_omap]. f_equal. exact IH.
Qed.

Lemma deliveries_for_pushes sid sid' l :
  deliveries_for sid (map (fun m => socket_emit sid' (chat_message m)) l)
    = if str_eqb sid' sid then map Client.PushMessage l else [].
Proof.
  induction l as [|m l IH]; [by destruct (str_eqb sid' sid)|].
  unfold deliveries_for in *. cbn [map omap list_omap].
  destruct (str_eqb sid' sid); [f_equal|]; exact IH.
Qed.

(** The deliveries of a handler other than the read-receipt one: the
    appended records, then pushes of records of the log. *)
Lemma step_deliveries sid s e :
  is_read_receipt e = false ->
  exists replay,
    deliveries_for sid (step s e).2
      = map Client.PushMessage (broadcast_messages (step s e).2)
          ++ map Client.PushMessage replay
    /\ forall m, m ∈ replay -> m ∈ messages (step s e).1.
Proof.
  destruct e as [sid' n u t|sid' o n u t|sid' tx sd u t|sid' m r|sid' u t];
    simpl; intros Hr; try done.
  - pose proof (step_sent_records s (UserJoined sid' n u t)) as Hin.
    simpl in Hin.
    destruct (user_joined_shape sid' n u t s) as (nt & _ & Heq).
    simpl in Heq. rewrite Heq in *. simpl in *.
    rewrite !deliveries_for_app, deliveries_for_notice,
      deliveries_for_pushes, !broadcast_messages_app,
      broadcast_messages_notice, broadcast_messages_pushes.
    simpl. rewrite !app_nil_r.
    destruct (str_eqb sid' sid).
    + eexists. split; [reflexivity|].
      intros m Hm. destruct (Hin m) as (_ & _ & Hpush).
      apply (Hpush sid'), elem_of_app. right.
      apply elem_of_app. left. apply list_elem_of_fmap. by exists m.
    + exists []. split; [done|]. intros m Hm. inversion Hm.
  - exists []. unfold change_username, push_and_emit.
    destruct (str_neqb o n && str_neqb (trim n) []); simpl;
      (split; [done | intros m Hm; inversion Hm]).
  - exists []. split; [done | intros m Hm; inversion Hm].
  - exists []. unfold disconnect, push_and_emit.
    destruct (map_get sid' (users s)) as [n|]; [destruct (truthy n)|];
      simpl; (split; [done | intros m Hm; inversion Hm]).
Qed.

Lemma step_sync sid s e st :
  Client.messages st = messages s ->
  unique_ids (messages s) ->
  (forall u, event_uuid e = Some u -> u ∉ map id (messages s)) ->
  Client.messages (Client.deliver_all st (deliveries_for sid (step s e).2))
    = messages (step s e).1.
Proof.
  intros Hst Huniq Hfresh.
  destruct (is_read_receipt e) eqn:Er.
  - destruct e as [| | |sid' mid r|]; try done. simpl.
    unfold read_receipt.
    destruct (list_find _ _) as [[i msg]|] eqn:E; [|done].
    destruct (negb _); simpl; [|done].
    apply list_find_Some in E as (Hlook & _ & _).
    unfold Client.deliver_all. simpl. rewrite Hst.
    by apply (replace_by_id_unique _ _ i msg).
  - destruct (step_deliveries sid s e Er) as (replay & -> & Hreplay).
    pose proof (step_appends_broadcasts s e Er) as Happ.
    rewrite deliver_all_app.
    assert (Hfirst :
      Client.messages
        (Client.deliver_all st
           (map Client.PushMessage (broadcast_messages (step s e).2)))
      = messages (step s e).1).
    { destruct (step_ids s e) as [Hsame|(u & Hu & _ & Hids)].
      - rewrite Happ, map_app in Hsame.
        assert (broadcast_messages (step s e).2 = []) as Hnil.
        { apply (f_equal length) in Hsame.
          rewrite length_app, !length_map in Hsame.
          apply nil_length_inv. lia. }
        rewrite Happ, Hnil, app_nil_r. done.
      - rewrite Happ, map_app in Hids. apply app_inv_head in Hids.
        destruct (broadcast_messages (step s e).2) as [|m [|m' l]];
          try discriminate Hids.
        injection Hids as Hm. rewrite Happ.
        unfold Client.deliver_all. simpl. rewrite Hst.
        apply merge_absent. rewrite Hm. by apply Hfresh. }
    rewrite deliver_known_pushes; [done|].
    intros m Hm. rewrite Hfirst. apply list_elem_of_fmap.
    exists m. split; [done|]. by apply Hreplay.
Qed.

(** X10. A client whose mirror equals the server's log, and to which
    every broadcast and every push for its socket is delivered in order,
    has a mirror equal to the log after any sequence of events, provided
    the ids of the log and the generated ids are pairwise distinct. *)
Theorem mirror_follows_log sid s es st :
  Client.messages st = messages s ->
  NoDup (map id (messages s) ++ uuids es) ->
  Client.messages
    (Client.deliver_all st (deliveries_for sid (run s es).2))
    = messages (run s es).1.
Proof.
  revert s st. induction es as [|e es IH]; intros s st Hst Hnd; [done|].
  rewrite run_cons. simpl. rewrite deliveries_for_app, deliver_all_app.
  apply IH; [|by apply step_ids_fresh].
  apply step_sync; [done| |].
  - unfold unique_ids. by apply NoDup_app in Hnd as (? & _ & _).
  - intros u Hu Hin. apply NoDup_app in Hnd as (_ & Hdis & _).
    apply (Hdis u Hin). rewrite uuids_cons, Hu. left.
Qed.

(** The theorem at the empty server and mirror: a post, a receipt for it,
    and a join of the client's own socket. *)
Lemma mirror_follows_log_witness :
  let es := [ChatMessage (lit "c1") (lit "hi") (lit "ana") (lit "m1") 10;
             ReadReceipt (lit "c2") (lit "m1") (lit "bob");
             UserJoined (lit "c2") (lit "bob") (lit "m2") 20] in
  Client.messages Client.initial = messages initial /\
  NoDup (map id (messages initial) ++ uuids es) /\
  Client.messages
    (Client.deliver_all Client.initial
       (deliveries_for (lit "c2") (run initial es).2))
    = [mkMessage (lit "m1") (lit "hi") (lit "ana") 10
         [lit "ana"; lit "bob"];
       systemMessage (lit "m2") (lit "bob joined the chat") 20 [lit "bob"]].
Proof.
  simpl.
  assert (H : NoDup (map id (messages initial)
    ++ uuids [ChatMessage (lit "c1") (lit "hi") (lit "ana") (lit "m1") 10;
              ReadReceipt (lit "c2") (lit "m1") (lit "bob");
              UserJoined (lit "c2") (lit "bob") (lit "m2") 20])).
  { compute_done. }
  split_and!; [reflexivity | exact H |].
  exact (mirror_follows_log (lit "c2") initial
    [ChatMessage (lit "c1") (lit "hi") (lit "ana") (lit "m1") 10;
     ReadReceipt (lit "c2") (lit "m1") (lit "bob");
     UserJoined (lit "c2") (lit "bob") (lit "m2") 20]
    Client.initial eq_refl H).
Defined.

(** X11. With no socket ([socketRef.current] is [null]) none of the three
    triggers sends a receipt; this is the state a logout leaves, with an
    empty mirror and an empty user name, whatever the state before. *)
Theorem nothing_sent_without_socket st msg visible entries :
  (Client.socket st = None ->
     (Client.handleChatMessage msg st).2 = []
     /\ Client.handleVisibilityChange visible st = []
     /\ Client.observerCallback entries st = [])
  /\ (let st' := Client.handleTrueLogout st in
      Client.socket st' = None
      /\ (is_Some (Client.socket st) ->
            Client.messages st' = [] /\ Client.username st' = [])
      /\ (Client.handleChatMessage msg st').2 = []
      /\ Client.handleVisibilityChange visible st' = []
      /\ Client.observerCallback entries st' = []).
Proof.
  assert (Hnone : forall st, Client.socket st = None ->
    (Client.handleChatMessage msg st).2 = []
    /\ Client.handleVisibilityChange visible st = []
    /\ Client.observerCallback entries st = []).
  { clear. intros st Hs. split_and!.
    - unfold Client.handleChatMessage. simpl. rewrite Hs.
      rewrite bool_decide_eq_false_2 by (by intros [? ?]).
      by rewrite andb_false_r.
    - unfold Client.handleVisibilityChange, Client.connected. rewrite Hs.
      by rewrite andb_false_r.
    - unfold Client.observerCallback.
      induction entries as [|e l IH]; [done|]. simpl. rewrite IH.
      rewrite app_nil_r. unfold Client.emit_read_receipt. rewrite Hs.
      destruct (Client.isIntersecting e); [|done].
      destruct (Client.data_message_id e) as [mid|]; [|done].
      destruct (truthy mid); [|done].
      destruct (find _ _); [|done]. by destruct (_ && _). }
  split; [apply Hnone|].
  assert (Hs : Client.socket (Client.handleTrueLogout st) = None).
  { unfold Client.handleTrueLogout.
    destruct (Client.socket st) eqn:E; [done | exact E]. }
  simpl. split_and!; [done| |by apply Hnone ..].
  intros [c Hc]. unfold Client.handleTrueLogout. by rewrite Hc.
Qed.

End Sync.

(** ** The receipt line of a message *)

Section ReceiptLine.
Import Server View.
Implicit Types (s : State) (e : event) (es : list event) (m : Message).

Lemma step_sender_reads_first s e :
  sender_reads_first (messages s) ->
  sender_reads_first (messages (step s e).1).
Proof.
  unfold sender_reads_first. intros H.
  assert (Hsys : forall uuid body now readers,
    Forall (fun m => sender m <> lit "System" ->
                     head (readBy m) = Some (sender m))
      (messages s ++ [systemMessage uuid body now readers])).
  { intros. apply Forall_app. split; [done|].
    constructor; [|constructor]. simpl. done. }
  destruct e as [sid n u t|sid o n u t|sid tx sd u t|sid mid r|sid u t];
    simpl.
  - unfold user_joined, push_and_emit.
    destruct (map_get sid (users s)) as [p|];
      [destruct (truthy p); [destruct (str_neqb p n)|]|];
      simpl; try done; apply Hsys.
  - unfold change_username, push_and_emit.
    destruct (str_neqb o n && str_neqb (trim n) []); simpl; [|done].
    apply Hsys.
  - apply Forall_app. split; [done|]. constructor; [|constructor]. done.
  - unfold read_receipt.
    destruct (list_find _ _) as [[i msg]|] eqn:E; [|done].
    destruct (negb _); simpl; [|done].
    apply list_find_Some in E as (Hlook & _ & _).
    apply Forall_insert; [done|]. simpl. intros Hs.
    pose proof (Forall_lookup_1 _ _ _ _ H Hlook Hs) as Hhead.
    destruct (readBy msg); [discriminate Hhead | exact Hhead].
  - unfold disconnect, push_and_emit.
    destruct (map_get sid (users s)) as [n|]; [destruct (truthy n)|];
      simpl; try done; apply Hsys.
Qed.

Lemma run_sender_reads_first es s :
  sender_reads_first (messages s) ->
  sender_reads_first (messages (run s es).1).
Proof.
  revert s. induction es as [|e es IH]; intros s H; [done|].
  rewrite run_cons. simpl. by apply IH, step_sender_reads_first.
Qed.

Lemma filter_others_keeps x (l : list jsstring) :
  x ∉ l -> List.filter (fun reader => str_neqb reader x) l = l.
Proof.
  induction l as [|y l IH]; [done|].
  rewrite not_elem_of_cons. intros [Hne Hl]. simpl.
  assert (str_neqb y x = true) as -> by (apply str_neqb_true; congruence).
  by rewrite IH.
Qed.

(** X12. For a record of a log the server has built, the receipt line
    shows nothing when the sender is "System"; otherwise the record's
    readers are its sender followed by the other readers, each once, and
    the line is "Not read yet" when there is no other reader and else
    "Read by n person/people" with n the number of other readers, listed
    in the order they read, "person" exactly for n = 1. *)
Theorem receipt_line_counts_other_readers s es m :
  readers_distinct (messages s) -> sender_reads_first (messages s) ->
  m ∈ messages (run s es).1 ->
  (sender m = lit "System" -> ReadReceiptDisplay m = RenderNothing)
  /\ (sender m <> lit "System" ->
        exists others,
          readBy m = sender m :: others
          /\ (sender m ∉ others) /\ NoDup others
          /\ ReadReceiptDisplay m =
               match others with
               | [] => NotReadYet
               | [_] => ReadByOthers 1 (lit "person") others
               | _ => ReadByOthers (length others) (lit "people") others
               end).
Proof.
  intros Hd Hf Hm.
  apply (run_readers_distinct es) in Hd.
  apply (run_sender_reads_first es) in Hf.
  unfold readers_distinct, sender_reads_first in *.
  rewrite Forall_forall in Hd, Hf. specialize (Hd m Hm). specialize (Hf m Hm).
  unfold ReadReceiptDisplay. split.
  - intros ->. by rewrite str_eqb_refl.
  - intros Hs. specialize (Hf Hs).
    destruct (readBy m) as [|x others] eqn:Hr; [discriminate Hf|].
    injection Hf as ->. apply NoDup_cons in Hd as [Hnot Hnd].
    exists others. split_and!; try done.
    apply str_eqb_false in Hs. rewrite Hs. simpl.
    assert (str_neqb (sender m) (sender m) = false) as ->
      by by apply str_neqb_false.
    rewrite filter_others_keeps by done.
    by destruct others as [|a [|b l]].
Qed.

(** The theorem at the empty server: a post read by one other user. *)
Lemma receipt_line_counts_other_readers_witness :
  let es := [ChatMessage (lit "c1") (lit "hi") (lit "ana") (lit "m1") 10;
             ReadReceipt (lit "c2") (lit "m1") (lit "bob")] in
  let m := mkMessage (lit "m1") (lit "hi") (lit "ana") 10
             [lit "ana"; lit "bob"] in
  readers_distinct (messages initial) /\
  sender_reads_first (messages initial) /\
  m ∈ messages (run initial es).1 /\
  (sender m = lit "System" -> ReadReceiptDisplay m = RenderNothing).
Proof.
  simpl.
  assert (H1 : readers_distinct (messages initial)) by constructor.
  assert (H2 : sender_reads_first (messages initial)) by constructor.
  assert (H3 : mkMessage (lit "m1") (lit "hi") (lit "ana") 10
                 [lit "ana"; lit "bob"]
               ∈ messages
                   (run initial
                      [ChatMessage (lit "c1") (lit "hi") (lit "ana")
                         (lit "m1") 10;
                       ReadReceipt (lit "c2") (lit "m1") (lit "bob")]).1).
  { vm_compute. left. }
  split_and!; [exact H1 | exact H2 | exact H3 |].
  exact (proj1 (receipt_line_counts_other_readers initial
    [ChatMessage (lit "c1") (lit "hi") (lit "ana") (lit "m1") 10;
     ReadReceipt (lit "c2") (lit "m1") (lit "bob")]
    (mkMessage (lit "m1") (lit "hi") (lit "ana") 10 [lit "ana"; lit "bob"])
    H1 H2 H3)).
Defined.

End ReceiptLine.

(** ** Trimming and sending a message *)

Section Submit.
Import App.
Implicit Types (st : State) (n : jsstring).

Lemma trim_start_head n c k :
  trim_start n = c :: k -> is_whitespace c = false.
Proof.
  induction n as [|x n IH]; simpl; [done|].
  destruct (is_whitespace x) eqn:E; [done|]. by intros [= <- _].
Qed.

Lemma trim_start_suffix n : exists pre, n = pre ++ trim_start n.
Proof.
  induction n as [|x n [pre IH]]; simpl; [by exists []|].
  destruct (is_whitespace x).
  - exists (x :: pre). simpl. by f_equal.
  - by exists [].
Qed.

Lemma trim_start_fixed c k :
  is_whitespace c = false -> trim_start (c :: k) = c :: k.
Proof. intros H. simpl. by rewrite H. Qed.

(** A string that starts and ends with no white space is its own trim. *)
Lemma trim_fixed n c d :
  head n = Some c -> last n = Some d ->
  is_whitespace c = false -> is_whitespace d = false -> trim n = n.
Proof.
  intros Hc Hd Hwc Hwd. unfold trim, trim_end.
  destruct n as [|c' k]; [done|]. injection Hc as ->.
  rewrite trim_start_fixed by done.
  apply last_Some in Hd as [k' Hk'].
  change (rev (trim_start (rev (c :: k))) = c :: k). rewrite Hk'.
  rewrite rev_app_distr. simpl. rewrite Hwd. simpl.
  by rewrite rev_involutive.
Qed.

Lemma trim_edges n :
  trim n <> [] ->
  exists c d, head (trim n) = Some c /\ last (trim n) = Some d /\
              is_whitespace c = false /\ is_whitespace d = false.
Proof.
  unfold trim, trim_end. intros Hne.
  destruct (trim_start (rev (trim_start n))) as [|d k] eqn:E; [done|].
  pose proof (trim_start_head _ _ _ E) as Hd.
  destruct (trim_start_suffix (rev (trim_start n))) as [pre Hpre].
  rewrite E in Hpre. apply (f_equal (@rev N)) in Hpre.
  rewrite rev_involutive, rev_app_distr in Hpre.
  destruct (rev (d :: k)) as [|c k'] eqn:Er.
  { apply (f_equal (@length N)) in Er. rewrite length_rev in Er.
    discriminate Er. }
  simpl in Hpre. pose proof (trim_start_head _ _ _ Hpre) as Hc.
  exists c, d. split_and!; try done.
  rewrite <- Er. simpl. apply last_snoc.
Qed.

Lemma trim_idempotent n : trim (trim n) = trim n.
Proof.
  destruct (decide (trim n = [])) as [->|Hne]; [done|].
  destruct (trim_edges n Hne) as (c & d & Hc & Hd & Hwc & Hwd).
  by eapply trim_fixed.
Qed.

(** X13. Submitting the message form sends at most one "chat message":
    when the chat view is up and the Send button is enabled (connected,
    input not blank) it sends exactly the trimmed input under the current
    user name and clears the input; when the button is disabled it sends
    nothing and keeps the input. A text that is sent is never empty and
    never starts or ends with white space. *)
Theorem message_submit_sends_trimmed_text st :
  let res := handleMessageSubmit st in
  (hasUsername st = true ->
   View.send_disabled (negb (connected st)) (input st) = false ->
   res.2 = [emit_chat_message (trim (input st)) (username st)]
   /\ input res.1 = [])
  /\ (View.send_disabled (negb (connected st)) (input st) = true ->
      res.2 = [] /\ input res.1 = input st)
  /\ (forall a, a ∈ res.2 ->
        a = emit_chat_message (trim (input st)) (username st)
        /\ hasUsername st = true /\ connected st = true)
  /\ (forall msg_text msg_sender,
        emit_chat_message msg_text msg_sender ∈ res.2 ->
        msg_text <> [] /\ trim msg_text = msg_text
        /\ exists c d, head msg_text = Some c /\ last msg_text = Some d
                       /\ is_whitespace c = false
                       /\ is_whitespace d = false).
Proof.
  simpl. unfold handleMessageSubmit, View.send_disabled.
  assert (Ht : truthy (trim (input st)) = negb (str_eqb (trim (input st)) [])).
  { by destruct (trim (input st)). }
  rewrite Ht. split_and!.
  - intros -> H. apply orb_false_iff in H as [Hc Hb].
    apply negb_false_iff in Hc. by rewrite Hc, Hb.
  - intros H. apply orb_true_iff in H as [Hc|Hb].
    + apply negb_true_iff in Hc. rewrite Hc, andb_false_r. done.
    + rewrite Hb. simpl. by destruct (negb (connected st)).
  - intros a.
    destruct (negb (str_eqb (trim (input st)) []) && hasUsername st
              && connected st) eqn:E.
    + intros Ha. apply list_elem_of_singleton in Ha.
      apply andb_true_iff in E as [E ?]. by apply andb_true_iff in E as [_ ?].
    + destruct (negb (connected st)); intros Ha; inversion Ha.
  - intros msg_text msg_sender.
    destruct (negb (str_eqb (trim (input st)) []) && hasUsername st
              && connected st) eqn:E.
    + intros Ha. apply list_elem_of_singleton in Ha. injection Ha as -> _.
      apply andb_true_iff in E as [E _]. apply andb_true_iff in E as [E _].
      apply negb_true_iff, str_eqb_false in E.
      split_and!; [done | apply trim_idempotent | by apply trim_edges].
    + destruct (negb (connected st)); intros Ha; inversion Ha.
Qed.

End Submit.

(** ** The user-name flows of the client *)

Section Flows.
Import App.
Implicit Types (st : State) (v : jsstring).

Lemma run_effects_same n st : run_effects n st st = (st, []).
Proof. destruct n; [done|]. simpl. by rewrite bool_decide_eq_true_2. Qed.

Lemma run_effects_idle n prev st :
  joinEffect st = (st, []) -> run_effects n prev st = (st, []).
Proof.
  intros H. destruct n; [done|]. simpl. case_bool_decide; [done|].
  by rewrite H, run_effects_same.
Qed.

Lemma joinEffect_hidden st : hasUsername st = false -> joinEffect st = (st, []).
Proof.
  intros H. unfold joinEffect. rewrite H. by rewrite andb_false_r.
Qed.

(** Once the effect has run, running it again leaves the state alone. *)
Lemma joinEffect_settled st :
  (joinEffect (joinEffect st).1).1 = (joinEffect st).1.
Proof.
  destruct st as [[msgs u sock] inp has ou ce ch old].
  unfold joinEffect, username, connected, Client.connected. cbn -[trim].
  destruct (truthy u) eqn:Hu, has, sock as [[|]|], ch; cbn -[trim];
    rewrite ?Hu; cbn -[trim]; try done.
  destruct (str_neqb (trim u) old) eqn:E; cbn -[trim]; rewrite ?Hu, ?E;
    cbn -[trim]; done.
Qed.

Lemma run_effects_S n prev st :
  run_effects (S n) prev st =
    if bool_decide (joinEffect_deps prev = joinEffect_deps st) then (st, [])
    else ((run_effects n st (joinEffect st).1).1,
          (joinEffect st).2 ++ (run_effects n st (joinEffect st).1).2).
Proof.
  simpl. case_bool_decide; [done|].
  destruct (joinEffect st). simpl. by destruct (run_effects n _ _).
Qed.

Lemma run_effects_after_effect k st :
  run_effects (S (S k)) st (joinEffect st).1
    = run_effects 2 st (joinEffect st).1.
Proof.
  rewrite (run_effects_S (S k)), (run_effects_S 1).
  by rewrite joinEffect_settled, !run_effects_same.
Qed.

Lemma joinEffect_emits_once st : (length (joinEffect st).2 <= 1)%nat.
Proof.
  unfold joinEffect.
  destruct (truthy (username st) && hasUsername st && connected st);
    [|simpl; lia].
  destruct (changingUsername st && _); [simpl; lia|].
  destruct (negb (changingUsername st)); simpl; lia.
Qed.

(** X14. After any change of state the join effect runs at most twice
    and sends at most two events: three rounds of rendering settle the
    state, and more rounds change nothing. *)
Theorem run_effects_settles n prev st :
  run_effects (3 + n) prev st = run_effects 3 prev st
  /\ (length (run_effects (3 + n) prev st).2 <= 2)%nat.
Proof.
  assert (Heq : run_effects (3 + n) prev st = run_effects 3 prev st).
  { change (3 + n)%nat with (S (S (S n))).
    rewrite (run_effects_S (S (S n))), (run_effects_S 2).
    by rewrite run_effects_after_effect. }
  rewrite Heq. split; [done|].
  rewrite (run_effects_S 2). case_bool_decide; [simpl; lia|].
  rewrite (run_effects_S 1). cbn [snd].
  pose proof (joinEffect_emits_once st) as H1.
  case_bool_decide; cbn [snd]; [rewrite app_nil_r; lia|].
  pose proof (joinEffect_emits_once (joinEffect st).1) as H2.
  rewrite joinEffect_settled, run_effects_same. cbn [snd].
  rewrite app_nil_r, length_app. lia.
Qed.

Lemma dispatch_eq st ev :
  dispatch st ev =
    ((run_effects 3 st (handle st ev).1).1,
     (handle st ev).2 ++ (run_effects 3 st (handle st ev).1).2).
Proof.
  unfold dispatch. destruct (handle st ev) as [st1 out1].
  cbn [fst snd]. by destruct (run_effects 3 st st1).
Qed.

Lemma dispatch_all_cons st ev evs :
  dispatch_all st (ev :: evs) =
    ((dispatch_all (dispatch st ev).1 evs).1,
     (dispatch st ev).2 ++ (dispatch_all (dispatch st ev).1 evs).2).
Proof.
  cbn [dispatch_all]. destruct (dispatch st ev) as [st1 out1].
  cbn [fst snd]. by destruct (dispatch_all st1 evs).
Qed.

(** While the user-name form is up the effect sends nothing. *)
Lemma dispatch_hidden st ev :
  hasUsername (handle st ev).1 = false -> dispatch st ev = handle st ev.
Proof.
  intros H. rewrite dispatch_eq.
  rewrite run_effects_idle by by apply joinEffect_hidden.
  cbn [fst snd]. rewrite app_nil_r. by destruct (handle st ev).
Qed.

Lemma truthy_trim v : trim v <> [] -> truthy (trim v) = true /\ truthy v = true.
Proof.
  intros H. split; [by apply truthy_true|].
  by apply truthy_true, trim_nonempty.
Qed.

Lemma joinEffect_rename msgs name inp ou ce old :
  truthy name = true -> trim name <> old ->
  joinEffect
    {| core := {| Client.messages := msgs; Client.username := name;
                  Client.socket := Some true |};
       input := inp; hasUsername := true; onlineUsers := ou;
       connectionError := ce; changingUsername := true;
       oldUsername := old |}
  = ({| core := {| Client.messages := msgs; Client.username := name;
                   Client.socket := Some true |};
        input := inp; hasUsername := true; onlineUsers := ou;
        connectionError := ce; changingUsername := false;
        oldUsername := [] |},
     [emit_change_username old (trim name)]).
Proof.
  intros Ht Hne. apply str_neqb_true in Hne.
  unfold joinEffect, username, connected, Client.connected.
  cbn -[trim]. by rewrite Ht, Hne.
Qed.

Lemma joinEffect_join msgs name inp ou ce old :
  truthy name = true ->
  joinEffect
    {| core := {| Client.messages := msgs; Client.username := name;
                  Client.socket := Some true |};
       input := inp; hasUsername := true; onlineUsers := ou;
       connectionError := ce; changingUsername := false;
       oldUsername := old |}
  = ({| core := {| Client.messages := msgs; Client.username := name;
                   Client.socket := Some true |};
        input := inp; hasUsername := true; onlineUsers := ou;
        connectionError := ce; changingUsername := false;
        oldUsername := old |},
     [emit_user_joined (trim name)]).
Proof.
  intros Ht. unfold joinEffect, username, connected, Client.connected.
  cbn -[trim]. by rewrite Ht.
Qed.

Lemma submit_in_change_mode msgs v inp ou ce u :
  trim v <> [] ->
  let form :=
    {| core := {| Client.messages := msgs; Client.username := v;
                  Client.socket := Some true |};
       input := inp; hasUsername := false; onlineUsers := ou;
       connectionError := ce; changingUsername := true;
       oldUsername := u |} in
  let chat name :=
    {| core := {| Client.messages := msgs; Client.username := name;
                  Client.socket := Some true |};
       input := inp; hasUsername := true; onlineUsers := ou;
       connectionError := ce; changingUsername := false;
       oldUsername := [] |} in
  (trim v <> u ->
     dispatch form SubmitUsername =
       (chat (trim v),
        [emit_change_username u (trim v); emit_user_joined (trim v)]))
  /\ (trim v = u ->
      dispatch form SubmitUsername = (chat v, [emit_user_joined (trim v)])).
Proof.
  intros Hv. destruct (truthy_trim v Hv) as [Htv Htr]. cbn zeta. split.
  - intros Hne. rewrite dispatch_eq.
    assert (Hh : handle
      {| core := {| Client.messages := msgs; Client.username := v;
                    Client.socket := Some true |};
         input := inp; hasUsername := false; onlineUsers := ou;
         connectionError := ce; changingUsername := true;
         oldUsername := u |} SubmitUsername
      = ({| core := {| Client.messages := msgs; Client.username := trim v;
                       Client.socket := Some true |};
            input := inp; hasUsername := true; onlineUsers := ou;
            connectionError := ce; changingUsername := true;
            oldUsername := u |}, [])).
    { unfold handle, handleUsernameSubmit, handleUsernameUpdate, username,
        socket, connected, Client.connected.
      cbn -[trim]. rewrite Htv. apply str_eqb_false in Hne.
      by rewrite Hne. }
    rewrite Hh. cbn [fst snd app].
    rewrite (run_effects_S 2).
    rewrite bool_decide_eq_false_2 by (intros [=]).
    rewrite joinEffect_rename by (by rewrite ?trim_idempotent).
    cbn [fst snd]. rewrite (run_effects_S 1).
    rewrite bool_decide_eq_false_2 by (intros [=]).
    rewrite joinEffect_join by done.
    cbn [fst snd]. rewrite run_effects_same. cbn [fst snd app].
    by rewrite trim_idempotent.
  - intros Heq. rewrite dispatch_eq.
    assert (Hh : handle
      {| core := {| Client.messages := msgs; Client.username := v;
                    Client.socket := Some true |};
         input := inp; hasUsername := false; onlineUsers := ou;
         connectionError := ce; changingUsername := true;
         oldUsername := u |} SubmitUsername
      = ({| core := {| Client.messages := msgs; Client.username := v;
                       Client.socket := Some true |};
            input := inp; hasUsername := true; onlineUsers := ou;
            connectionError := ce; changingUsername := false;
            oldUsername := [] |}, [])).
    { unfold handle, handleUsernameSubmit, handleUsernameUpdate, username,
        socket, connected, Client.connected.
      cbn -[trim]. rewrite Htv. apply str_eqb_true in Heq.
      by rewrite Heq. }
    rewrite Hh. cbn [fst snd app].
    rewrite (run_effects_S 2).
    rewrite bool_decide_eq_false_2 by (intros [=]).
    rewrite joinEffect_join by done.
    cbn [fst snd]. by rewrite run_effects_same.
Qed.

(** X15. A rename through the form. In the chat view, connected, the
    user clicks "Change Username", types a name that is not blank and
    submits. When the trimmed name differs from the current one, the
    client sends "change username" from the current name to the trimmed
    name and then "user joined" with the trimmed name, and takes the
    trimmed name. When it equals the current one, the client sends only
    "user joined" with the trimmed name and keeps the name as typed. In
    both cases it is back in the chat view with the mirror untouched. *)
Theorem rename_flow st v :
  connected st = true -> hasUsername st = true ->
  changingUsername st = false -> trim v <> [] ->
  let res :=
    dispatch_all st [ClickChangeUsername; TypeUsername v; SubmitUsername] in
  (trim v <> username st ->
     res.2 = [emit_change_username (username st) (trim v);
              emit_user_joined (trim v)]
     /\ username res.1 = trim v)
  /\ (trim v = username st ->
      res.2 = [emit_user_joined (trim v)] /\ username res.1 = v)
  /\ hasUsername res.1 = true /\ changingUsername res.1 = false
  /\ oldUsername res.1 = [] /\ messages res.1 = messages st.
Proof.
  intros Hc Hh Hch Hv.
  destruct st as [[msgs u sock] inp has ou ce ch old].
  unfold connected, Client.connected, username, messages in *.
  cbn [core Client.socket Client.username Client.messages hasUsername
       changingUsername] in *.
  destruct sock as [[|]|]; try discriminate Hc. subst has ch.
  cbn zeta. rewrite !dispatch_all_cons.
  rewrite (dispatch_hidden _ ClickChangeUsername) by done.
  rewrite (dispatch_hidden _ (TypeUsername v)) by done.
  destruct (submit_in_change_mode msgs v inp ou ce u Hv) as [Hdiff Hsame].
  cbn zeta in Hdiff, Hsame.
  change (handle (handle _ ClickChangeUsername).1 (TypeUsername v)).1
    with {| core := {| Client.messages := msgs; Client.username := v;
                       Client.socket := Some true |};
            input := inp; hasUsername := false; onlineUsers := ou;
            connectionError := ce; changingUsername := true;
            oldUsername := u |}.
  cbn [dispatch_all handle fst snd app].
  destruct (decide (trim v = u)) as [Heq|Hne].
  - rewrite (Hsame Heq). cbn. split_and!; try done.
  - rewrite (Hdiff Hne). cbn -[trim]. split_and!; try done.
Qed.

(** The theorem for a user "Ana" who types " Bea ". *)
Lemma rename_flow_witness :
  let st :=
    {| core := {| Client.messages := []; Client.username := lit "Ana";
                  Client.socket := Some true |};
       input := []; hasUsername := true; onlineUsers := [];
       connectionError := None; changingUsername := false;
       oldUsername := [] |} in
  connected st = true /\ hasUsername st = true /\
  changingUsername st = false /\ trim (lit " Bea ") <> [] /\
  (trim (lit " Bea ") <> username st ->
   (dispatch_all st
      [ClickChangeUsername; TypeUsername (lit " Bea "); SubmitUsername]).2
     = [emit_change_username (lit "Ana") (lit "Bea");
        emit_user_joined (lit "Bea")]
   /\ username
        (dispatch_all st
           [ClickChangeUsername; TypeUsername (lit " Bea ");
            SubmitUsername]).1
      = lit "Bea").
Proof.
  cbn zeta.
  assert (H : trim (lit " Bea ") <> []) by discriminate.
  split_and!; [reflexivity | reflexivity | reflexivity | exact H |].
  exact (proj1 (rename_flow
    {| core := {| Client.messages := []; Client.username := lit "Ana";
                  Client.socket := Some true |};
       input := []; hasUsername := true; onlineUsers := [];
       connectionError := None; changingUsername := false;
       oldUsername := [] |}
    (lit " Bea ") eq_refl eq_refl eq_refl H)).
Defined.




End Flows.

(** ** The scroll trigger on the rendered list *)

Section Rendered.
Import Client View.
Implicit Types (st : State) (mirror l : list Message) (m : Message).

Lemma find_by_id mirror m :
  unique_ids mirror -> m ∈ mirror ->
  find (fun x => str_eqb (id x) (id m)) mirror = Some m.
Proof.
  unfold unique_ids. induction mirror as [|x l IH]; simpl.
  - intros _ H. inversion H.
  - rewrite NoDup_cons. intros [Hx Hnd] Hm.
    destruct (str_eqb (id x) (id m)) eqn:E.
    + apply str_eqb_true in E.
      apply elem_of_cons in Hm as [->|Hm]; [done|].
      exfalso. apply Hx. rewrite E. apply list_elem_of_fmap. by exists m.
    + apply str_eqb_false in E.
      apply elem_of_cons in Hm as [->|Hm]; [done|]. by apply IH.
Qed.

Lemma filter_Permutation (f : Message -> bool) l l' :
  l ≡ₚ l' -> List.filter f l ≡ₚ List.filter f l'.
Proof.
  induction 1 as [|x l l' _ IH|x y l|l1 l2 l3 _ IH1 _ IH2]; simpl.
  - done.
  - destruct (f x); [by constructor | done].
  - destruct (f x), (f y); try done. apply Permutation_swap.
  - by etrans.
Qed.

Lemma visibility_receipts st :
  username st <> [] -> connected st = true ->
  handleVisibilityChange true st
    = map (receipt_for st) (List.filter (unread_by st) (messages st)).
Proof.
  intros Hu Hc. unfold handleVisibilityChange.
  apply truthy_true in Hu. rewrite Hu, Hc. simpl.
  assert (Hs : is_Some (socket st)).
  { unfold connected in Hc. destruct (socket st); [eauto | done]. }
  destruct Hs as [c Hs].
  induction (messages st) as [|m l IH]; [done|].
  simpl. rewrite IH. unfold unread_by at 2.
  destruct (str_neqb (sender m) (username st)
            && negb (includes (readBy m) (username st))); [|done].
  unfold emit_read_receipt. by rewrite Hs.
Qed.

Lemma observer_receipts st l :
  unique_ids (messages st) -> is_Some (socket st) ->
  (forall m, m ∈ l -> m ∈ messages st /\ id m <> []) ->
  observerCallback
    (map (entry_of true)
       (map (fun m => MessageBubble m (str_eqb (sender m) (username st))) l))
    st
  = map (receipt_for st) (List.filter (unread_by st) l).
Proof.
  intros Hu [c Hs] Hl. unfold observerCallback.
  induction l as [|m l IH]; [done|].
  cbn [map flat_map List.filter]. rewrite IH
    by (intros x Hx; apply Hl; by right).
  destruct (Hl m) as [Hm Hid]; [left|].
  cbn [entry_of isIntersecting data_message_id MessageBubble
       data_message_id_attr].
  apply truthy_true in Hid. rewrite Hid, (find_by_id _ _ Hu Hm).
  unfold unread_by at 2.
  destruct (str_neqb (sender m) (username st)
            && negb (includes (readBy m) (username st))); [|done].
  unfold emit_read_receipt. by rewrite Hs.
Qed.

(** X17. With a name, a connected socket and a mirror whose ids are
    non-empty and pairwise distinct: when every bubble of the rendered
    list is in view, the scroll trigger sends one receipt for each
    message of the mirror that is from another sender and not yet read by
    the user, in the order of display; the visibility trigger sends one
    for each of the same messages, in the order of the mirror. *)
Theorem triggers_send_the_same_receipts st :
  unique_ids (messages st) ->
  Forall (fun m => id m <> []) (messages st) ->
  username st <> [] -> connected st = true ->
  let in_view :=
    map (entry_of true) (MessageList (messages st) (username st)) in
  observerCallback in_view st
    = map (receipt_for st)
        (List.filter (unread_by st) (Server.sort_by_time (messages st)))
  /\ handleVisibilityChange true st
     = map (receipt_for st) (List.filter (unread_by st) (messages st))
  /\ observerCallback in_view st ≡ₚ handleVisibilityChange true st.
Proof.
  intros Hu Hids Hn Hc. cbn zeta.
  assert (Hs : is_Some (socket st)).
  { unfold connected in Hc. destruct (socket st); [eauto | done]. }
  assert (Hobs : observerCallback
            (map (entry_of true) (MessageList (messages st) (username st)))
            st
          = map (receipt_for st)
              (List.filter (unread_by st)
                 (Server.sort_by_time (messages st)))).
  { unfold MessageList. apply observer_receipts; [done..|].
    intros m Hm. rewrite sort_by_time_perm in Hm. split; [done|].
    by apply (proj1 (Forall_forall _ _) Hids). }
  split_and!; [done | by apply visibility_receipts |].
  rewrite Hobs, visibility_receipts by done.
  apply Permutation_map, filter_Permutation, sort_by_time_perm.
Qed.

(** The theorem for "bob" and a mirror of two messages out of time
    order. *)
Lemma triggers_send_the_same_receipts_witness :
  let st :=
    {| messages :=
         [mkMessage (lit "m2") (lit "yo") (lit "ana") 20 [lit "ana"];
          mkMessage (lit "m1") (lit "hi") (lit "cy") 10 [lit "cy"]];
       username := lit "bob"; socket := Some true |} in
  unique_ids (messages st) /\
  Forall (fun m => id m <> []) (messages st) /\
  username st <> [] /\ connected st = true /\
  observerCallback
    (map (entry_of true) (MessageList (messages st) (username st))) st
    = [{| messageId := lit "m1"; reader := lit "bob" |};
       {| messageId := lit "m2"; reader := lit "bob" |}].
Proof.
  cbn zeta.
  assert (H1 : unique_ids
    [mkMessage (lit "m2") (lit "yo") (lit "ana") 20 [lit "ana"];
     mkMessage (lit "m1") (lit "hi") (lit "cy") 10 [lit "cy"]]).
  { unfold unique_ids. compute_done. }
  assert (H2 : Forall (fun m => id m <> [])
    [mkMessage (lit "m2") (lit "yo") (lit "ana") 20 [lit "ana"];
     mkMessage (lit "m1") (lit "hi") (lit "cy") 10 [lit "cy"]]).
  { repeat constructor; discriminate. }
  assert (H3 : lit "bob" <> []) by discriminate.
  split_and!; [exact H1 | exact H2 | exact H3 | reflexivity |].
  exact (proj1 (triggers_send_the_same_receipts
    {| messages :=
         [mkMessage (lit "m2") (lit "yo") (lit "ana") 20 [lit "ana"];
          mkMessage (lit "m1") (lit "hi") (lit "cy") 10 [lit "cy"]];
       username := lit "bob"; socket := Some true |}
    H1 H2 H3 eq_refl)).
Defined.

End Rendered.

(** ** The online list against the live connections *)

Section Liveness.
Import Server.
Implicit Types (s : State) (e : event) (es : list event).
Implicit Types (conns : list jsstring).

Lemma live_step_keeps conns e sid :
  sid ∈ conns -> (is_disconnect e = true -> sid <> event_socket e) ->
  sid ∈ (if is_disconnect e then
           List.filter (fun c => str_neqb c (event_socket e)) conns
         else if includes conns (event_socket e) then conns
         else conns ++ [event_socket e]).
Proof.
  intros Hin Hne. destruct (is_disconnect e).
  - apply list_elem_of_In, filter_In. split; [by apply list_elem_of_In|].
    apply str_neqb_true. by apply Hne.
  - destruct (includes conns (event_socket e)); [done|].
    apply elem_of_app. by left.
Qed.

Lemma live_step_adds conns e :
  is_disconnect e = false ->
  event_socket e ∈ (if is_disconnect e then
                      List.filter (fun c => str_neqb c (event_socket e)) conns
                    else if includes conns (event_socket e) then conns
                    else conns ++ [event_socket e]).
Proof.
  intros ->. destruct (includes conns (event_socket e)) eqn:E.
  - by apply includes_true.
  - apply elem_of_app. right. left.
Qed.

(** One handler keeps the registry within the live connections, as long
    as every bound name is non-empty and the event does not bind the
    empty name. *)
Lemma step_registry_live s conns e :
  map_wf (users s) ->
  (forall sid n, map_get sid (users s) = Some n -> n <> [] /\ sid ∈ conns) ->
  joins_named e ->
  forall sid n, map_get sid (users (step s e).1) = Some n ->
    n <> [] /\ sid ∈ live_sockets conns [e].
Proof.
  intros Hwf Hinv Hnamed sid' n'. cbn [live_sockets].
  destruct e as [sid n u t|sid o n u t|sid tx sd u t|sid m r|sid u t];
    cbn [step].
  - destruct (user_joined_shape sid n u t s) as (nt & _ & ->).
    cbn [fst users]. intros Hget.
    destruct (decide (sid = sid')) as [<-|Hne].
    + rewrite map_get_set_eq in Hget. injection Hget as <-.
      split; [exact Hnamed|]. by apply (live_step_adds conns (UserJoined sid n u t)).
    + rewrite map_get_set_ne in Hget by done.
      destruct (Hinv _ _ Hget) as [? ?]. split; [done|].
      by apply live_step_keeps.
  - unfold change_username, push_and_emit.
    destruct (str_neqb o n && str_neqb (trim n) []) eqn:E;
      cbn [fst users]; intros Hget.
    + apply andb_true_iff in E as [_ E]. apply str_neqb_true in E.
      destruct (decide (sid = sid')) as [<-|Hne].
      * rewrite map_get_set_eq in Hget. injection Hget as <-.
        split; [by intros ->|].
        by apply (live_step_adds conns (ChangeUsername sid o n u t)).
      * rewrite map_get_set_ne in Hget by done.
        destruct (Hinv _ _ Hget) as [? ?]. split; [done|].
        by apply live_step_keeps.
    + destruct (Hinv _ _ Hget) as [? ?]. split; [done|].
      by apply live_step_keeps.
  - cbn [chat_message_received push_and_emit fst users]. intros Hget.
    destruct (Hinv _ _ Hget) as [? ?]. split; [done|].
    by apply live_step_keeps.
  - unfold read_receipt.
    destruct (list_find _ _) as [[i msg]|]; [destruct (negb _)|];
      cbn [fst users]; intros Hget;
      (destruct (Hinv _ _ Hget) as [? ?]; split; [done|];
       by apply live_step_keeps).
  - unfold disconnect, push_and_emit.
    destruct (map_get sid (users s)) as [name|] eqn:Hsid.
    + destruct (Hinv _ _ Hsid) as [Hname _].
      apply truthy_true in Hname. rewrite Hname. cbn [fst users].
      intros Hget.
      assert (sid' <> sid) as Hne.
      { intros ->. by rewrite map_get_delete_eq in Hget. }
      rewrite map_get_delete_ne in Hget by congruence.
      destruct (Hinv _ _ Hget) as [? ?]. split; [done|].
      apply live_step_keeps; [done|]. by intros _.
    + cbn [fst]. intros Hget.
      assert (sid' <> sid) as Hne by (intros ->; congruence).
      destruct (Hinv _ _ Hget) as [? ?]. split; [done|].
      apply live_step_keeps; [done|]. by intros _.
Qed.

Lemma run_wf es s : map_wf (users s) -> map_wf (users (run s es).1).
Proof.
  revert s. induction es as [|e es IH]; intros s H; [done|].
  rewrite run_cons. cbn [fst]. by apply IH, step_wf.
Qed.

(** When no connection ever binds the empty name, the claim about the
    online list holds along every trace: the names the server lists are
    exactly the names bound to at least one live connection. *)
Lemma online_users_live_without_empty_names es s conns name :
  map_wf (users s) ->
  (forall sid n, map_get sid (users s) = Some n -> n <> [] /\ sid ∈ conns) ->
  Forall joins_named es ->
  name ∈ getOnlineUsers (run s es).1
  <-> bound_live (live_sockets conns es) (run s es).1 name.
Proof.
  intros Hwf Hinv Hes.
  assert (Hlive : forall sid n,
    map_get sid (users (run s es).1) = Some n ->
    n <> [] /\ sid ∈ live_sockets conns es).
  { revert s conns Hwf Hinv.
    induction Hes as [|e es He Hes IH]; intros s conns Hwf Hinv; [done|].
    rewrite run_cons. cbn [fst live_sockets].
    apply IH; [by apply step_wf|].
    apply (step_registry_live s conns e Hwf Hinv He). }
  unfold getOnlineUsers, bound_live.
  rewrite (elem_of_map_values name _ (run_wf es s Hwf)). split.
  - intros [sid Hget]. exists sid. split; [|done]. by apply (Hlive sid name).
  - intros (sid & _ & Hget). by exists sid.
Qed.

(** C2. A connection joins under the empty name and disconnects, and a
    second connection joins as "Bea". The disconnect did not remove the
    first connection from the registry, so the "online users" payload
    broadcast after the second join lists the empty name next to "Bea",
    although the only live connection is the second one and no live
    connection is bound to the empty name. *)
Theorem online_users_lists_disconnected_socket :
  let res := run initial ghost_scenario in
  let conns := live_sockets [] ghost_scenario in
  last res.2 = Some (io_emit (online_users [[]; lit "Bea"]))
  /\ users res.1 = [(lit "c1", []); (lit "c2", lit "Bea")]
  /\ conns = [lit "c2"]
  /\ bound_live conns res.1 (lit "Bea")
  /\ ~ bound_live conns res.1 [].
Proof.
  cbn zeta.
  assert (Hc : live_sockets [] ghost_scenario = [lit "c2"])
    by (vm_compute; reflexivity).
  assert (Hu : users (run initial ghost_scenario).1
               = [(lit "c1", []); (lit "c2", lit "Bea")])
    by (vm_compute; reflexivity).
  split_and!; [vm_compute; reflexivity | exact Hu | exact Hc | |].
  - exists (lit "c2"). rewrite Hc, Hu. split; [left | reflexivity].
  - intros (sid & Hin & Hget). rewrite Hc in Hin. rewrite Hu in Hget.
    apply list_elem_of_singleton in Hin as ->. vm_compute in Hget.
    discriminate Hget.
Qed.

End Liveness.
